(** * The recurrence-and-reminder pipeline, embedded and verified

    A shallow embedding of the event pipeline of the task application:

    - [recurring-service/src/services/recurrence.py]   (module [Recurrence])
    - [recurring-service/src/services/backend_client.py] (module [BackendClient])
    - [recurring-service/src/api/events.py]            (module [Events])
    - [notification-service/src/handlers/reminder_handler.py]
                                                       (module [ReminderHandler])
    - [notification-service/src/api/reminders.py]      (module [Reminders])
    - [backend/src/services/events/publisher.py]       (module [EventPublisher])

    Python values that come out of [request.json()] are modelled by the
    inductive type [json]; [datetime] objects by a record of their fields
    together with their [tzinfo]; effects (the wall clock, the log, outbound
    HTTP requests, standard output) by a state-and-exception monad [M] over a
    [World].  Exceptions keep the effects performed before they were raised,
    as in Python.

    The recurring service logs through the logger of its
    [core/logging.py], a plain [logging.Logger], and passes the fields of
    every record as keyword arguments; such a call raises [TypeError] when
    the level of the record is enabled.  The level from which records are
    enabled is set where the service starts, outside these files, and is a
    parameter of the model ([effective_level]). *)

From Stdlib Require Import ZArith List String Ascii Bool Lia.
Import ListNotations.
Open Scope string_scope.
Open Scope Z_scope.

(* ================================================================== *)
(** * Part I: the model                                                 *)
(* ================================================================== *)

(** ** Python values, exceptions and results *)

Module Py.

(** The exceptions the modelled code can meet.  [HTTPStatusError] and
    [TransportError] are the two families below [httpx.HTTPError]. *)
Inductive exn : Type :=
| TypeError
| ValueError
| OverflowError
| AttributeError
| KeyError
| JSONDecodeError
| HTTPStatusError (code : Z)
| TransportError.

(** Outcome of running a piece of Python.  [OutOfFuel] is not a Python
    exception: it only says that the bounded unfolding of a [while] loop in
    the model was too short, and no [except] clause catches it. *)
Inductive result (A : Type) : Type :=
| Ok (a : A)
| Raise (e : exn)
| OutOfFuel.
Arguments Ok {A} a.
Arguments Raise {A} e.
Arguments OutOfFuel {A}.

(** [isinstance(e, httpx.HTTPError)] *)
Definition is_httpx_error (e : exn) : bool :=
  match e with
  | HTTPStatusError _ | TransportError => true
  | _ => false
  end.

(** What [json.loads] produces: [None], [bool], numbers (kept to the
    integers), [str], [list], [dict].  A dict is kept as the list of its
    entries; its keys are distinct, and [lookup] reads the list front to
    back. *)
#[local] Unset Elimination Schemes.
Inductive json : Type :=
| JNull
| JBool (b : bool)
| JNum (n : Z)
| JStr (s : string)
| JArr (items : list json)
| JObj (fields : list (string * json)).
#[local] Set Elimination Schemes.

(** Truth value of a Python object, as tested by [if x:] and [not x]. *)
Definition truthy (v : json) : bool :=
  match v with
  | JNull => false
  | JBool b => b
  | JNum n => negb (n =? 0)
  | JStr s => negb (String.eqb s "")
  | JArr l => match l with [] => false | _ => true end
  | JObj l => match l with [] => false | _ => true end
  end.

(** [v == s] for a string literal [s]. *)
Definition eq_str (v : json) (s : string) : bool :=
  match v with
  | JStr t => String.eqb t s
  | _ => false
  end.

Fixpoint lookup (k : string) (d : list (string * json)) : option json :=
  match d with
  | [] => None
  | (k', v) :: rest => if String.eqb k' k then Some v else lookup k rest
  end.

(** [v.get(k, default)]: only a dict has a [get] method. *)
Definition get (v : json) (k : string) (default : json) : result json :=
  match v with
  | JObj d => Ok (match lookup k d with Some x => x | None => default end)
  | _ => Raise AttributeError
  end.

(** [v[k]] with a string key: the value of a dict; a list or a string want
    integer indices, and nothing else can be subscripted. *)
Definition getitem (v : json) (k : string) : result json :=
  match v with
  | JObj d => match lookup k d with Some x => Ok x | None => Raise KeyError end
  | _ => Raise TypeError
  end.

Fixpoint is_substring (k s : string) : bool :=
  String.prefix k s ||
  match s with
  | EmptyString => false
  | String _ rest => is_substring k rest
  end.

(** [k in v]: a key of a dict, an element of a list, a substring of a
    string; other values are not containers. *)
Definition contains (v : json) (k : string) : result bool :=
  match v with
  | JObj d => Ok (match lookup k d with Some _ => true | None => false end)
  | JArr l => Ok (existsb (fun x => eq_str x k) l)
  | JStr s => Ok (is_substring k s)
  | _ => Raise TypeError
  end.

(** [bool(str(v))]: [str(v)] is empty only for the empty string. *)
Definition str_nonempty (v : json) : bool := negb (eq_str v "").

(** [str(e)], kept to the name of the exception. *)
Definition describe (e : exn) : string :=
  match e with
  | TypeError => "TypeError"
  | ValueError => "ValueError"
  | OverflowError => "OverflowError"
  | AttributeError => "AttributeError"
  | KeyError => "KeyError"
  | JSONDecodeError => "JSONDecodeError"
  | HTTPStatusError _ => "HTTPStatusError"
  | TransportError => "TransportError"
  end.

(** [s.replace(old, new)] for a non-empty [old]: every non-overlapping
    occurrence, left to right.  [skip] counts the characters of an occurrence
    still to be dropped. *)
Fixpoint replace_from (old new s : string) (skip : nat) : string :=
  match s with
  | EmptyString => EmptyString
  | String c rest =>
      match skip with
      | S k => replace_from old new rest k
      | O =>
          if String.prefix old s
          then new ++ replace_from old new rest (String.length old - 1)
          else String c (replace_from old new rest 0)
      end
  end.

Definition replace (s old new : string) : string := replace_from old new s 0.

(** The items a [for x in v:] loop visits: the elements of a list, the
    characters of a string, the keys of a dict; other values are not
    iterable. *)
Fixpoint chars (s : string) : list json :=
  match s with
  | EmptyString => []
  | String c rest => JStr (String c EmptyString) :: chars rest
  end.

Definition iter (v : json) : result (list json) :=
  match v with
  | JArr l => Ok l
  | JStr s => Ok (chars s)
  | JObj d => Ok (map (fun kv => JStr (fst kv)) d)
  | _ => Raise TypeError
  end.

End Py.
Export Py.

(** ** [datetime] *)

Module DateTime.

(** A [datetime.datetime]: its seven fields and its [tzinfo], kept as the
    UTC offset in minutes ([None] for a naive value). *)
Record datetime : Type := mkDT {
  year : Z; month : Z; day : Z;
  hour : Z; minute : Z; second : Z; microsecond : Z;
  tzinfo : option Z
}.

Definition MINYEAR : Z := 1.
Definition MAXYEAR : Z := 9999.

Definition is_leap (y : Z) : bool :=
  (y mod 4 =? 0) && (negb (y mod 100 =? 0) || (y mod 400 =? 0)).

Definition days_in_month (y m : Z) : Z :=
  if m =? 2 then (if is_leap y then 29 else 28)
  else if (m =? 4) || (m =? 6) || (m =? 9) || (m =? 11) then 30
  else 31.

(** The invariant every [datetime] object satisfies by construction, the
    upper bound on the year left apart ([in_range]). *)
Definition valid (d : datetime) : bool :=
  (MINYEAR <=? year d) &&
  (1 <=? month d) && (month d <=? 12) &&
  (1 <=? day d) && (day d <=? days_in_month (year d) (month d)) &&
  (0 <=? hour d) && (hour d <? 24) &&
  (0 <=? minute d) && (minute d <? 60) &&
  (0 <=? second d) && (second d <? 60) &&
  (0 <=? microsecond d) && (microsecond d <? 1000000).

Definition in_range (d : datetime) : bool := year d <=? MAXYEAR.

Definition naive (d : datetime) : bool :=
  match tzinfo d with None => true | Some _ => false end.

Definition with_tz (tz : option Z) (d : datetime) : datetime :=
  mkDT (year d) (month d) (day d) (hour d) (minute d) (second d)
       (microsecond d) tz.

Definition with_date (y m dd : Z) (d : datetime) : datetime :=
  mkDT y m dd (hour d) (minute d) (second d) (microsecond d) (tzinfo d).

(** Comparison of two naive values: the tuples of fields, in
    lexicographic order. *)
Definition lex (c1 c2 : comparison) : comparison :=
  match c1 with Eq => c2 | _ => c1 end.

Definition cmp_fields (a b : datetime) : comparison :=
  lex (year a ?= year b)
 (lex (month a ?= month b)
 (lex (day a ?= day b)
 (lex (hour a ?= hour b)
 (lex (minute a ?= minute b)
 (lex (second a ?= second b)
      (microsecond a ?= microsecond b)))))).

(** Proleptic Gregorian ordinal of a date ([date.toordinal]). *)
Definition days_before_year (y : Z) : Z :=
  let p := y - 1 in p * 365 + p / 4 - p / 100 + p / 400.

Fixpoint days_before_month_from (y : Z) (m : nat) : Z :=
  match m with
  | O => 0
  | S k => days_before_month_from y k + days_in_month y (Z.of_nat (S k))
  end.

Definition toordinal (d : datetime) : Z :=
  days_before_year (year d)
  + days_before_month_from (year d) (Z.to_nat (month d - 1))
  + day d.

(** Microseconds since the origin of an aware value, its offset taken off. *)
Definition utc_instant (d : datetime) (offset : Z) : Z :=
  (((toordinal d * 24 + hour d) * 60 + minute d - offset) * 60 + second d)
  * 1000000 + microsecond d.

(** [a ? b] for the order operators: a naive and an aware value cannot be
    ordered ("can't compare offset-naive and offset-aware datetimes"). *)
Definition compare (a b : datetime) : result comparison :=
  match tzinfo a, tzinfo b with
  | None, None => Ok (cmp_fields a b)
  | Some oa, Some ob => Ok (utc_instant a oa ?= utc_instant b ob)
  | _, _ => Raise TypeError
  end.

(** [a <= b] *)
Definition le (a b : datetime) : result bool :=
  match compare a b with
  | Ok Gt => Ok false
  | Ok _ => Ok true
  | Raise e => Raise e
  | OutOfFuel => OutOfFuel
  end.

(** [a < b] *)
Definition lt (a b : datetime) : result bool :=
  match compare a b with
  | Ok Lt => Ok true
  | Ok _ => Ok false
  | Raise e => Raise e
  | OutOfFuel => OutOfFuel
  end.

(** The calendar day after [d], time of day and [tzinfo] unchanged. *)
Definition next_day (d : datetime) : datetime :=
  if day d <? days_in_month (year d) (month d)
  then with_date (year d) (month d) (day d + 1) d
  else if month d <? 12
  then with_date (year d) (month d + 1) 1 d
  else with_date (year d + 1) 1 1 d.

Fixpoint plus_days (n : nat) (d : datetime) : datetime :=
  match n with
  | O => d
  | S k => plus_days k (next_day d)
  end.

(** [d + timedelta(days=n)]: the date [n] days later; a result after
    [MAXYEAR] is an [OverflowError]. *)
Definition add_days (d : datetime) (n : nat) : result datetime :=
  let r := plus_days n d in
  if in_range r then Ok r else Raise OverflowError.

(** The fields of [d + relativedelta(months=1)]: the next month, the day
    clipped to the length of that month. *)
Definition plus_month (d : datetime) : datetime :=
  let m1 := month d + 1 in
  let y := if m1 >? 12 then year d + 1 else year d in
  let m := if m1 >? 12 then m1 - 12 else m1 in
  with_date y m (Z.min (days_in_month y m) (day d)) d.

(** [d + relativedelta(months=1)]; [datetime.replace] refuses a year after
    [MAXYEAR] with a [ValueError]. *)
Definition add_month (d : datetime) : result datetime :=
  let r := plus_month d in
  if in_range r then Ok r else Raise ValueError.

End DateTime.
Export DateTime.

(** ** backend/src/services/events/schemas.py and the [Task] entity *)

Module Schemas.

(** The columns of [models/task.py] the publisher reads; [priority] and
    [recurrence] hold the value of their enumeration, identifiers are kept
    as strings, [tags] holds the names of the tags. *)
Record Task : Type := mkTask {
  id : string;
  title : string;
  description : option string;
  is_completed : bool;
  priority : string;
  due_date : option datetime;
  remind_at : option datetime;
  recurrence : string;
  parent_task_id : option string;
  tags : list string;
  created_at : datetime;
  updated_at : datetime
}.

(** [TaskEventData]: the same fields, as carried by an event. *)
Record TaskEventData : Type := mkTaskEventData {
  ed_id : string;
  ed_title : string;
  ed_description : option string;
  ed_is_completed : bool;
  ed_priority : string;
  ed_due_date : option datetime;
  ed_remind_at : option datetime;
  ed_recurrence : string;
  ed_parent_task_id : option string;
  ed_tags : list string;
  ed_created_at : datetime;
  ed_updated_at : datetime
}.

(** [TaskEvent] *)
Record TaskEvent : Type := mkTaskEvent {
  event_type : string;
  task_id : string;
  task_data : TaskEventData;
  user_id : string;
  timestamp : datetime
}.

End Schemas.

(** ** Effects *)

Module Effects.

Inductive level : Type := DEBUG | INFO | WARNING | ERROR.

(** A log record: its level and its event name (the message template); the
    values interpolated into it are left out. *)
Record log_record : Type := mkLog { log_level : level; log_event : string }.

(** An outbound HTTP request, one constructor per endpoint:
    [POST {backend}/api/tasks] with its bearer token and JSON payload
    ([due_date] and [parent_task_id] only when set; [parent_task_id] holds
    the value whose [str] is sent), [POST {backend}/api/tasks/{id}/tags],
    and [POST http://localhost:{port}/v1.0/publish/{pubsub}/{topic}]. *)
Inductive outbound : Type :=
| PostCreateTask (token : string) (title description priority recurrence : json)
                 (due_date : option datetime) (parent_task_id : option json)
| PostAddTag (token : string) (task_id tag : json)
| PostPublish (dapr_port : Z) (pubsub_name topic : string)
              (event : Schemas.TaskEvent).

(** What the HTTP client call comes back with: it raises, or it returns a
    response with a status code and a body that parses as JSON or does
    not. *)
Inductive reply : Type :=
| Failure (e : exn)
| Response (status : Z) (body : option json).

(** The text of a reminder: the title, then the due date as parsed or, when
    it does not parse, as received, then the reminder time when it parses. *)
Inductive due_text : Type :=
| NoDue
| DueOn (d : datetime)
| DueRaw (s : string).

Record notification : Type := mkNotification {
  n_title : json;
  n_due : due_text;
  n_remind : option datetime
}.

(** The world a handler runs in: how often the clock was read, the log,
    the outbound requests made, the notifications printed. *)
Record World : Type := mkWorld {
  ticks : nat;
  logs : list log_record;
  sent : list outbound;
  printed : list notification
}.

Definition world0 : World := mkWorld 0 [] [] [].

(** What the handlers do not control: the successive readings of the wall
    clock, the answer to the [n]-th outbound request, the parser
    [datetime.fromisoformat] ([None] where it raises [ValueError]), and the
    effective level of the loggers of the recurring service
    ([Logger.getEffectiveLevel()]: the level of the root logger, which is
    [logging.WARNING] until [configure_logging] sets it from
    [settings.log_level], ["INFO"] unless the environment says otherwise). *)
Record Env : Type := mkEnv {
  clock : nat -> datetime;
  network : nat -> outbound -> reply;
  isoparse : string -> option datetime;
  effective_level : Z
}.

Definition M (A : Type) : Type := World -> result A * World.

Definition ret {A} (a : A) : M A := fun w => (Ok a, w).

Definition bind {A B} (c : M A) (k : A -> M B) : M B :=
  fun w =>
    match c w with
    | (Ok a, w') => k a w'
    | (Raise e, w') => (Raise e, w')
    | (OutOfFuel, w') => (OutOfFuel, w')
    end.

Definition raise {A} (e : exn) : M A := fun w => (Raise e, w).

(** Lift a computation without effects. *)
Definition lift {A} (r : result A) : M A := fun w => (r, w).

(** [try: c  except Exception as e: h e] *)
Definition try_except {A} (c : M A) (h : exn -> M A) : M A :=
  fun w =>
    match c w with
    | (Raise e, w') => h e w'
    | other => other
    end.

(** A logger call whose message is one formatted string, as the publisher
    and the notification service make them. *)
Definition log (lv : level) (ev : string) : M unit :=
  fun w => (Ok tt, mkWorld (ticks w) (logs w ++ [mkLog lv ev]) (sent w) (printed w)).

(** [logging.DEBUG], [logging.INFO], [logging.WARNING], [logging.ERROR] *)
Definition levelno (lv : level) : Z :=
  match lv with
  | DEBUG => 10
  | INFO => 20
  | WARNING => 30
  | ERROR => 40
  end.

(** [logger.isEnabledFor(lv)] *)
Definition isEnabledFor (env : Env) (lv : level) : bool :=
  effective_level env <=? levelno lv.

(** A logger call of the recurring service,
    [logger.<lv>(event, key=value, ...)], on the [logging.Logger] that
    [get_logger] returns (core/logging.py, lines 38-40).  [Logger.<lv>]
    tests [isEnabledFor] and, when the level is enabled, hands its keyword
    arguments to [Logger._log], which takes none of them and raises
    [TypeError]; when the level is not enabled the call returns at once.
    No record is made either way. *)
Definition log_kw (env : Env) (lv : level) (ev : string) : M unit :=
  fun w => if isEnabledFor env lv then (Raise TypeError, w) else (Ok tt, w).

(** [datetime.utcnow()]: the next clock reading, as a naive value. *)
Definition utcnow (env : Env) : M datetime :=
  fun w => (Ok (with_tz None (clock env (ticks w))),
            mkWorld (S (ticks w)) (logs w) (sent w) (printed w)).

(** [datetime.now(timezone.utc)]: the next clock reading, as an aware value. *)
Definition now_utc (env : Env) : M datetime :=
  fun w => (Ok (with_tz (Some 0) (clock env (ticks w))),
            mkWorld (S (ticks w)) (logs w) (sent w) (printed w)).

(** One outbound request: it is recorded, and the network answers. *)
Definition post (env : Env) (rq : outbound) : M reply :=
  fun w => (Ok (network env (List.length (sent w)) rq),
            mkWorld (ticks w) (logs w) (sent w ++ [rq]) (printed w)).

(** [datetime.fromisoformat(s)] *)
Definition fromisoformat (env : Env) (s : string) : result datetime :=
  match isoparse env s with
  | Some d => Ok d
  | None => Raise ValueError
  end.

(** [print(line)] *)
Definition print (line : notification) : M unit :=
  fun w => (Ok tt, mkWorld (ticks w) (logs w) (sent w) (printed w ++ [line])).

End Effects.
Export Effects.

Declare Scope py_scope.
Delimit Scope py_scope with py.
Notation "x <- c ;; k" := (bind c (fun x => k))
  (at level 61, c at next level, right associativity) : py_scope.
Notation "c ;;; k" := (bind c (fun _ => k))
  (at level 61, right associativity) : py_scope.
Open Scope py_scope.

(** ** recurring-service/src/services/recurrence.py *)

Module Recurrence.

(** One more interval of the pattern (lines 48-53).  The [if]/[elif] chain
    of the loop body has no [else]: any other pattern leaves the candidate
    as it is. *)
Definition advance (recurrence : json) (next_due : datetime) : result datetime :=
  if eq_str recurrence "daily" then add_days next_due 1
  else if eq_str recurrence "weekly" then add_days next_due 7
  else if eq_str recurrence "monthly" then add_month next_due
  else Ok next_due.

(** [while next_due <= now: ...] (lines 47-53), unfolded at most [fuel]
    times. *)
Fixpoint future_correction (fuel : nat) (recurrence : json)
         (now next_due : datetime) : result datetime :=
  match fuel with
  | O => OutOfFuel
  | S fuel' =>
      match le next_due now with
      | Ok true =>
          match advance recurrence next_due with
          | Ok nd => future_correction fuel' recurrence now nd
          | Raise e => Raise e
          | OutOfFuel => OutOfFuel
          end
      | Ok false => Ok next_due
      | Raise e => Raise e
      | OutOfFuel => OutOfFuel
      end
  end.

(** [base_date = current_due or completed_at or datetime.utcnow()]
    (line 33); a [datetime] is always true, so [or] only skips [None], and
    the clock is read only when both are [None]. *)
Definition base_date (env : Env) (current_due completed_at : option datetime)
  : M datetime :=
  match current_due with
  | Some d => ret d
  | None =>
      match completed_at with
      | Some c => ret c
      | None => utcnow env
      end
  end.

(** The first candidate (lines 33-43): the base date plus one interval of
    the pattern; on any other pattern the warning, then [None], which the
    caller returns. *)
Definition first_candidate (env : Env) (current_due : option datetime)
           (recurrence : json) (completed_at : option datetime)
  : M (option datetime) :=
  base <- base_date env current_due completed_at ;;
  if eq_str recurrence "daily" then
    nd <- lift (add_days base 1) ;; ret (Some nd)
  else if eq_str recurrence "weekly" then
    nd <- lift (add_days base 7) ;; ret (Some nd)
  else if eq_str recurrence "monthly" then
    nd <- lift (add_month base) ;; ret (Some nd)
  else
    log_kw env WARNING "unknown_recurrence_pattern" ;;; ret None.

(** [calculate_next_due(current_due, recurrence, completed_at)] *)
Definition calculate_next_due (env : Env) (fuel : nat)
           (current_due : option datetime) (recurrence : json)
           (completed_at : option datetime) : M (option datetime) :=
  if eq_str recurrence "none" then ret None
  else
    first <- first_candidate env current_due recurrence completed_at ;;
    match first with
    | None => ret None
    | Some next_due =>
        now <- utcnow env ;;
        next_due' <- lift (future_correction fuel recurrence now next_due) ;;
        log_kw env INFO "calculated_next_due" ;;;
        ret (Some next_due')
    end.

End Recurrence.
Export Recurrence.

(** ** What the web framework does with a handler's return value *)

Module FastAPI.

Definition HTTP_200_OK : Z := 200.
Definition HTTP_500_INTERNAL_SERVER_ERROR : Z := 500.

Record http_response : Type := mkResponse {
  status_code : Z;
  content : json
}.

(** An inbound request: its body as [await request.json()] gives it
    ([None] where the body is not JSON) and its [Authorization] header. *)
Record Request : Type := mkRequest {
  body_json : option json;
  authorization : option string
}.

(** [await request.json()] *)
Definition request_json (request : Request) : result json :=
  match body_json request with
  | Some b => Ok b
  | None => Raise JSONDecodeError
  end.

(** [JSONResponse(status_code=..., content=...)] *)
Definition JSONResponse (status : Z) (c : json) : http_response :=
  mkResponse status c.

(** A path operation that returns a dict: the dict is sent with the status
    code of the route, [default_status]; an exception that leaves the path
    operation is answered with a 500. *)
Definition serve_dict (default_status : Z) (handler : M json) : M http_response :=
  try_except
    (d <- handler ;; ret (mkResponse default_status d))
    (fun _ => ret (mkResponse HTTP_500_INTERNAL_SERVER_ERROR
                              (JStr "Internal Server Error"))).

(** A path operation that returns a response object. *)
Definition serve_response (handler : M http_response) : M http_response :=
  try_except handler
    (fun _ => ret (mkResponse HTTP_500_INTERNAL_SERVER_ERROR
                              (JStr "Internal Server Error"))).

(** [response.is_success], the test of [response.raise_for_status()] *)
Definition is_success (status : Z) : bool := (200 <=? status) && (status <=? 299).

(** What the bus gateway reads from a subscriber's answer: a 2xx status
    acknowledges the event, any other status asks for redelivery. *)
Definition acknowledged (r : http_response) : bool := is_success (status_code r).

End FastAPI.
Export FastAPI.

(** ** recurring-service/src/services/backend_client.py *)

Module BackendClient.

(** The body of the loop of [_add_tags]: one request per tag; the status
    of the answer is not looked at; when the request fails, the [except]
    clause makes its logger call, and the loop goes on if that call
    returns. *)
Fixpoint add_each (env : Env) (token : string) (task_id : json)
         (tags : list json) : M unit :=
  match tags with
  | [] => ret tt
  | tag :: rest =>
      try_except
        (r <- post env (PostAddTag token task_id tag) ;;
         match r with
         | Failure e => raise e
         | Response _ _ => ret tt
         end)
        (fun _ => log_kw env WARNING "tag_addition_failed") ;;;
      add_each env token task_id rest
  end.

(** [BackendClient._add_tags(client, task_id, tags, headers)] *)
Definition _add_tags (env : Env) (token : string) (task_id tags : json) : M unit :=
  items <- lift (iter tags) ;;
  add_each env token task_id items.

(** [BackendClient.create_task(...)]; [parent_task_id] is the value whose
    [str] the caller passes. *)
Definition create_task (env : Env) (title user_id : json) (token : string)
           (description priority tags : json) (due_date : option datetime)
           (recurrence : json) (parent_task_id : option json) : M json :=
  let parent :=
    match parent_task_id with
    | Some v => if str_nonempty v then Some v else None
    | None => None
    end in
  try_except
    (response <- post env (PostCreateTask token title description priority
                                          recurrence due_date parent) ;;
     match response with
     | Failure e => raise e
     | Response status body =>
         if is_success status then
           task_data <- lift (match body with
                              | Some b => Ok b
                              | None => Raise JSONDecodeError
                              end) ;;
           _ <- lift (get task_data "id" JNull) ;;
           log_kw env INFO "task_created_via_api" ;;;
           (if truthy tags then
              tid <- lift (getitem task_data "id") ;;
              _add_tags env token tid tags
            else ret tt) ;;;
           ret task_data
         else raise (HTTPStatusError status)
     end)
    (fun e =>
       match e with
       | HTTPStatusError _ => log_kw env ERROR "task_creation_failed" ;;; raise e
       | _ => log_kw env ERROR "task_creation_error" ;;; raise e
       end).

End BackendClient.

(** ** recurring-service/src/api/events.py *)

Module Events.

Definition reply_dict (status key text : string) : json :=
  JObj [("status", JStr status); (key, JStr text)].

(** The token taken from the request (lines 104-105): the [Authorization]
    header with every ["Bearer "] taken out, empty without a header. *)
Definition token_of (request : Request) : string :=
  let auth_header :=
    match authorization request with Some h => h | None => "" end in
  if negb (String.eqb auth_header "")
  then replace auth_header "Bearer " ""
  else "".

(** The inner [try] block (lines 102-149), which creates the next
    occurrence once the next due date is known.  An exception raised by the
    logger call of its [except] clause leaves the block. *)
Definition create_next_occurrence (env : Env) (request : Request)
           (task_data user_id task_id recurrence : json) (next_due : datetime)
  : M json :=
  try_except
    (let token := token_of request in
     if String.eqb token "" then
       log_kw env WARNING "no_auth_token_available" ;;;
       ret (reply_dict "SKIPPED" "reason" "no authentication token available")
     else
       title <- lift (get task_data "title" JNull) ;;
       description <- lift (get task_data "description" JNull) ;;
       priority <- lift (get task_data "priority" (JStr "medium")) ;;
       tags <- lift (get task_data "tags" (JArr [])) ;;
       new_task <- BackendClient.create_task env title user_id token
                     description priority tags (Some next_due) recurrence
                     (Some task_id) ;;
       new_id <- lift (get new_task "id" JNull) ;;
       log_kw env INFO "recurring_task_created" ;;;
       ret (JObj [("status", JStr "SUCCESS"); ("new_task_id", new_id)]))
    (fun e =>
       log_kw env ERROR "failed_to_create_recurring_task" ;;;
       ret (reply_dict "RETRY" "error" (describe e))).

(** [handle_task_event(request)]: the dict the path operation returns.  The
    arguments of a logger call are evaluated before the call is made. *)
Definition handle_task_event_body (env : Env) (fuel : nat) (request : Request)
  : M json :=
  try_except
    (body <- lift (request_json request) ;;
     data <- lift (get body "data" body) ;;
     event_type <- lift (get data "event_type" JNull) ;;
     task_data <- lift (get data "task_data" (JObj [])) ;;
     user_id <- lift (get data "user_id" JNull) ;;
     task_id <- lift (get data "task_id" JNull) ;;
     _ <- lift (get task_data "recurrence" JNull) ;;
     log_kw env INFO "task_event_received" ;;;
     if negb (eq_str event_type "task.completed") then
       log_kw env DEBUG "ignoring_non_completion_event" ;;;
       ret (reply_dict "IGNORED" "reason" "not a completion event")
     else
       recurrence <- lift (get task_data "recurrence" (JStr "none")) ;;
       if eq_str recurrence "none" then
         log_kw env DEBUG "ignoring_non_recurring_task" ;;;
         ret (reply_dict "IGNORED" "reason" "task is not recurring")
       else
         due <- lift (get task_data "due_date" JNull) ;;
         current_due <-
           (if truthy due then
              match due with
              | JStr s =>
                  d <- lift (fromisoformat env (replace s "Z" "+00:00")) ;;
                  ret (Some d)
              | _ => raise AttributeError
              end
            else ret None) ;;
         completed_at <- utcnow env ;;
         next_due <- calculate_next_due env fuel current_due recurrence
                                        (Some completed_at) ;;
         match next_due with
         | None =>
             log_kw env WARNING "could_not_calculate_next_due" ;;;
             ret (reply_dict "FAILED" "reason" "could not calculate next due date")
         | Some nd =>
             create_next_occurrence env request task_data user_id task_id
                                    recurrence nd
         end)
    (fun e =>
       log_kw env ERROR "task_event_processing_failed" ;;;
       ret (reply_dict "FAILED" "error" (describe e))).

(** The route [POST /api/events/task]: declared without a status code, so
    a dict it returns goes out with a 200; an exception that leaves it is
    answered with a 500. *)
Definition handle_task_event (env : Env) (fuel : nat) (request : Request)
  : M http_response :=
  serve_dict HTTP_200_OK (handle_task_event_body env fuel request).

End Events.

(** ** notification-service/src/handlers/reminder_handler.py *)

Module ReminderHandler.

Definition required_fields : list string := ["task_id"; "title"; "user_id"].

(** The loop of [_validate_event_data]: the first field that is absent, or
    present with a false value, is logged and ends the loop. *)
Fixpoint validate_fields (event_data : json) (fields : list string) : M bool :=
  match fields with
  | [] => ret true
  | field :: rest =>
      present <- lift (contains event_data field) ;;
      bad <- (if negb present then ret true
              else v <- lift (getitem event_data field) ;; ret (negb (truthy v))) ;;
      if (bad : bool) then
        log WARNING "Missing required field" ;;; ret false
      else validate_fields event_data rest
  end.

(** [ReminderHandler._validate_event_data(event_data)] *)
Definition _validate_event_data (event_data : json) : M bool :=
  validate_fields event_data required_fields.

(** The result dict of [_send_notification]. *)
Record send_result : Type := mkSend { success : bool; send_message : string }.

(** [ReminderHandler._send_notification(task_id, title, due_at, remind_at,
    user_id)]: the one dispatch is the [print]. *)
Definition _send_notification (env : Env) (task_id title due_at remind_at user_id : json)
  : M send_result :=
  try_except
    (due <-
       (if truthy due_at then
          match due_at with
          | JStr s =>
              try_except
                (d <- lift (fromisoformat env (replace s "Z" "+00:00")) ;;
                 ret (DueOn d))
                (fun e => match e with
                          | ValueError => ret (DueRaw s)
                          | _ => raise e
                          end)
          | _ => raise AttributeError
          end
        else ret NoDue) ;;
     remind <-
       (if truthy remind_at then
          match remind_at with
          | JStr s =>
              try_except
                (d <- lift (fromisoformat env (replace s "Z" "+00:00")) ;;
                 ret (Some d))
                (fun e => match e with
                          | ValueError => ret None
                          | _ => raise e
                          end)
          | _ => raise AttributeError
          end
        else ret None) ;;
     log INFO "Sending notification to user" ;;;
     print (mkNotification title due remind) ;;;
     ret (mkSend true "Notification sent successfully"))
    (fun e =>
       log ERROR "Failed to send notification" ;;;
       ret (mkSend false ("Notification sending failed: " ++ describe e))).

(** [ReminderHandler.handle_reminder_event(event_data)]: the result dict. *)
Definition handle_reminder_event (env : Env) (event_data : json) : M json :=
  try_except
    (log INFO "Received reminder event" ;;;
     ok <- _validate_event_data event_data ;;
     if negb ok then
       ret (JObj [("status", JStr "error");
                  ("message", JStr "Invalid reminder event data")])
     else
       task_id <- lift (get event_data "task_id" JNull) ;;
       title <- lift (get event_data "title" JNull) ;;
       due_at <- lift (get event_data "due_at" JNull) ;;
       remind_at <- lift (get event_data "remind_at" JNull) ;;
       user_id <- lift (get event_data "user_id" JNull) ;;
       log INFO "Processing reminder for task" ;;;
       notification_result <-
         _send_notification env task_id title due_at remind_at user_id ;;
       if success notification_result then
         log INFO "Successfully sent reminder notification" ;;;
         ret (JObj [("status", JStr "success");
                    ("message", JStr "Reminder notification sent for task");
                    ("task_id", task_id); ("user_id", user_id)])
       else
         log ERROR "Failed to send reminder notification" ;;;
         ret (JObj [("status", JStr "error");
                    ("message", JStr ("Failed to send notification: "
                                      ++ send_message notification_result));
                    ("task_id", task_id); ("user_id", user_id)]))
    (fun e =>
       log ERROR "Unexpected error handling reminder event" ;;;
       ret (JObj [("status", JStr "error");
                  ("message", JStr ("Unexpected error: " ++ describe e))])).

End ReminderHandler.

(** ** notification-service/src/api/reminders.py *)

Module Reminders.

(** The route [POST /handle]: the body is handed to the handler as it
    is; a result whose status is [success] is answered with a 200, any other
    with a 500. *)
Definition handle_reminder_event (env : Env) (request : Request) : M http_response :=
  serve_response
    (try_except
       (event_data <- lift (request_json request) ;;
        result <- ReminderHandler.handle_reminder_event env event_data ;;
        status <- lift (get result "status" JNull) ;;
        if eq_str status "success"
        then ret (JSONResponse HTTP_200_OK result)
        else ret (JSONResponse HTTP_500_INTERNAL_SERVER_ERROR result))
       (fun e =>
          ret (JSONResponse HTTP_500_INTERNAL_SERVER_ERROR
                 (JObj [("status", JStr "error");
                        ("message", JStr ("Failed to process reminder event: "
                                          ++ describe e))])))).

End Reminders.

(** ** backend/src/services/events/publisher.py *)

Module EventPublisher.
Import Schemas.

(** The configuration of an [EventPublisher] instance. *)
Record EventPublisher : Type := mkPublisher {
  dapr_port : Z;
  pubsub_name : string;
  enabled : bool
}.

(** The [TaskEventData] built from a task (lines 82-95). *)
Definition task_event_data (task : Task) : TaskEventData :=
  mkTaskEventData (id task) (title task) (description task) (is_completed task)
    (priority task) (due_date task) (remind_at task) (recurrence task)
    (parent_task_id task) (tags task) (created_at task) (updated_at task).

(** [EventPublisher.publish_task_event(event_type, task, user_id)].  The
    HTTP client the instance keeps between calls is created on demand and
    has no bearing on what is sent; building the event from a [Task] cannot
    fail. *)
Definition publish_task_event (env : Env) (self : EventPublisher)
           (event_type : string) (task : Task) (user_id : string) : M bool :=
  if negb (enabled self) then
    log INFO "Event publishing disabled" ;;; ret true
  else
    try_except
      (let task_data := task_event_data task in
       ts <- now_utc env ;;
       let event := mkTaskEvent event_type (id task) task_data user_id ts in
       response <- post env (PostPublish (dapr_port self) (pubsub_name self)
                                         "task-events" event) ;;
       match response with
       | Failure e => raise e
       | Response status _ =>
           if is_success status then
             log INFO "Published event" ;;; ret true
           else raise (HTTPStatusError status)
       end)
      (fun e =>
         if is_httpx_error e then
           log ERROR "Failed to publish event" ;;; ret false
         else
           log ERROR "Unexpected error publishing event" ;;; ret false).

End EventPublisher.

(** ** Vocabulary of the statements *)

Module Vocabulary.

(** The three recurring patterns. *)
Definition recurring (p : string) : Prop :=
  p = "daily" \/ p = "weekly" \/ p = "monthly".

(** One interval of a recurring pattern, on the fields, the year not
    bounded: what [advance] computes when it does not raise. *)
Definition plus_interval (p : string) (d : datetime) : datetime :=
  if String.eqb p "daily" then plus_days 1 d
  else if String.eqb p "weekly" then plus_days 7 d
  else if String.eqb p "monthly" then plus_month d
  else d.

(** [n] intervals in a row. *)
Fixpoint plus_intervals (p : string) (n : nat) (d : datetime) : datetime :=
  match n with
  | O => d
  | S k => plus_intervals p k (plus_interval p d)
  end.

(** The base anchor by precedence: the previous due date, else the
    completion time, else the clock reading [now0]. *)
Definition anchor (current_due completed_at : option datetime) (now0 : datetime)
  : datetime :=
  match current_due, completed_at with
  | Some d, _ => d
  | None, Some c => c
  | None, None => now0
  end.

(** The number of clock readings the anchor costs. *)
Definition anchor_ticks (current_due completed_at : option datetime) : nat :=
  match current_due, completed_at with
  | None, None => 1%nat
  | _, _ => 0%nat
  end.

(** The reading of the clock [k] readings after the world [w]. *)
Definition reading (env : Env) (w : World) (k : nat) : datetime :=
  with_tz None (clock env (ticks w + k)).

(** A day count that grows with every interval: the rank of the month times
    31, plus the day. *)
Definition day_rank (d : datetime) : Z :=
  (year d * 12 + month d) * 31 + day d.

(** A second count, which a day raises by at most one; it keeps a run of
    days from crossing two year ends. *)
Definition slow_rank (d : datetime) : Z := (year d * 12 + month d) * 28 + day d.

(** Two values with the same time of day and the same [tzinfo]. *)
Definition same_clock (a b : datetime) : Prop :=
  hour a = hour b /\ minute a = minute b /\ second a = second b /\
  microsecond a = microsecond b /\ tzinfo a = tzinfo b.

(** What one step of the calendar does to a valid value: it stays valid,
    keeps its time of day, moves to a later day, by at most one year. *)
Record step_ok (d d' : datetime) : Prop := mkStepOk {
  so_valid : valid d' = true;
  so_clock : same_clock d d';
  so_rank : day_rank d < day_rank d';
  so_year : year d <= year d' <= year d + 1
}.

(** A value the calculator can anchor on: well formed, naive like the
    readings of [datetime.utcnow()], and a year away from [MAXYEAR]. *)
Definition usable (d : datetime) : Prop :=
  valid d = true /\ naive d = true /\ year d < MAXYEAR.

Definition opt_usable (o : option datetime) : Prop :=
  match o with
  | Some d => usable d
  | None => True
  end.

(** The clock only gives well-formed readings before [MAXYEAR]. *)
Definition clock_ok (env : Env) : Prop :=
  forall n, valid (clock env n) = true /\ year (clock env n) < MAXYEAR.

(** Unfoldings of the correction loop that are enough from candidate [d]
    when the clock reads [now]. *)
Definition loop_bound (now d : datetime) : nat :=
  S (Z.to_nat (day_rank now - day_rank d + 1)).

(** A computation that makes no outbound request and prints nothing. *)
Definition silent {A} (c : M A) : Prop :=
  forall w, sent (snd (c w)) = sent w /\ printed (snd (c w)) = printed w.

(** A computation that never ends by an exception. *)
Definition catches_all {A} (c : M A) : Prop :=
  forall w e, fst (c w) <> Raise e.

(** A request that carries a task-lifecycle event: the body is JSON, the
    payload (the value under [data], else the body) is an object with the
    entries [fields], and its [task_data], an empty dict when absent, is an
    object with the entries [snapshot]. *)
Definition carries (request : Request) (fields snapshot : list (string * json))
  : Prop :=
  exists body,
    body_json request = Some body /\
    get body "data" body = Ok (JObj fields) /\
    get (JObj fields) "task_data" (JObj []) = Ok (JObj snapshot).

(** The kind of the event and the pattern of its snapshot, as the handler
    reads them. *)
Definition event_kind (fields : list (string * json)) : json :=
  match lookup "event_type" fields with Some v => v | None => JNull end.

Definition pattern_of (snapshot : list (string * json)) : json :=
  match lookup "recurrence" snapshot with Some v => v | None => JStr "none" end.


(** The result dict of the reminder handler on a payload that fails
    validation. *)
Definition invalid_reminder : json :=
  JObj [("status", JStr "error");
        ("message", JStr "Invalid reminder event data")].

(** A record with level [lv] and event [ev] is in the log of [w]. *)
Definition logged (lv : level) (ev : string) (w : World) : Prop :=
  In (mkLog lv ev) (logs w).

End Vocabulary.
Export Vocabulary.

(** ** Concrete inputs *)

Module Examples.

(** A naive value at midnight, and the same instant as an aware UTC value,
    as [datetime.fromisoformat] builds it from a string ending in
    [+00:00]. *)
Definition midnight (y m d : Z) : datetime := mkDT y m d 0 0 0 0 None.
Definition midnight_utc (y m d : Z) : datetime := mkDT y m d 0 0 0 0 (Some 0).
Definition at_time (y m d h mi s : Z) : datetime := mkDT y m d h mi s 0 None.

(** A small [fromisoformat]: the strings the examples use. *)
Definition parse_examples (s : string) : option datetime :=
  if String.eqb s "2025-01-01T00:00:00+00:00" then Some (midnight_utc 2025 1 1)
  else if String.eqb s "2025-01-01T00:00:00" then Some (midnight 2025 1 1)
  else None.

(** An environment whose clock stands at [now] and whose network answers
    every request with [r], the loggers at the effective level [lvl]. *)
Definition env_logging (lvl : Z) (now : datetime) (r : reply) : Env :=
  mkEnv (fun _ => now) (fun _ _ => r) parse_examples lvl.

(** Logging as Python starts it: the root logger at [WARNING]. *)
Definition env_at (now : datetime) (r : reply) : Env :=
  env_logging (levelno WARNING) now r.

(** Logging after [configure_logging()] under the default settings:
    [log_level = "INFO"] (core/config.py). *)
Definition env_configured (now : datetime) (r : reply) : Env :=
  env_logging (levelno INFO) now r.

(** Logging with [RECURRING_LOG_LEVEL=CRITICAL]: no level of the service's
    records is enabled. *)
Definition env_silenced (now : datetime) (r : reply) : Env :=
  env_logging 50 now r.

Definition unreachable : reply := Failure TransportError.

(** A task-lifecycle event of kind [kind] for a task with the given
    recurrence pattern and due date, as the publisher serialises it: the
    entries of its snapshot, its own entries, the event. *)
Definition snapshot_fields (recurrence : string) (due : json)
  : list (string * json) :=
  [("id", JStr "task-1");
   ("title", JStr "Water the plants");
   ("description", JNull);
   ("is_completed", JBool true);
   ("priority", JStr "medium");
   ("due_date", due);
   ("recurrence", JStr recurrence);
   ("tags", JArr [JStr "home"])].

Definition event_fields (kind recurrence : string) (due : json)
  : list (string * json) :=
  [("event_type", JStr kind);
   ("task_id", JStr "task-1");
   ("task_data", JObj (snapshot_fields recurrence due));
   ("user_id", JStr "user-1");
   ("timestamp", JStr "2025-01-08T00:00:00")].

Definition task_event (kind recurrence : string) (due : json) : json :=
  JObj (event_fields kind recurrence due).

(** A reminder payload with its three required fields. *)
Definition reminder : json :=
  JObj [("task_id", JStr "task-1");
        ("title", JStr "Water the plants");
        ("remind_at", JStr "2025-01-01T00:00:00");
        ("user_id", JStr "user-1")].

(** The same payload without [user_id]. *)
Definition reminder_without_user : json :=
  JObj [("task_id", JStr "task-1");
        ("title", JStr "Water the plants");
        ("remind_at", JStr "2025-01-01T00:00:00")].

(** A payload wrapped in a cloud-event envelope. *)
Definition cloud_event (payload : json) : json :=
  JObj [("specversion", JStr "1.0");
        ("type", JStr "com.dapr.event.sent");
        ("data", payload)].

End Examples.
Export Examples.

(** ** Further vocabulary: calendar readings of a value *)

Module Readings.

(** [date.weekday()]: Monday is 0; the ordinal 1 is a Monday. *)
Definition weekday (d : datetime) : Z := (toordinal d + 6) mod 7.

(** The rank of the month of a value: twelve per year. *)
Definition month_rank (d : datetime) : Z := year d * 12 + month d.

End Readings.
Export Readings.

(** ** Further vocabulary: the requests of the backend client *)

Module Requests.

(** The [parent_task_id] entry of the creation payload: left out when the
    string passed is empty. *)
Definition sent_parent (parent_task_id : option json) : option json :=
  match parent_task_id with
  | Some v => if str_nonempty v then Some v else None
  | None => None
  end.

(** The creation request [create_task] builds from its arguments. *)
Definition creation_request (token : string)
           (title description priority : json) (due_date : option datetime)
           (recurrence : json) (parent_task_id : option json) : outbound :=
  PostCreateTask token title description priority recurrence due_date
                 (sent_parent parent_task_id).

(** The tag requests for the tags [l] of the task [tid], in order. *)
Definition tag_requests (token : string) (tid : json) (l : list json)
  : list outbound :=
  map (PostAddTag token tid) l.

(** The number of creation requests among the requests sent. *)
Fixpoint creations (l : list outbound) : nat :=
  match l with
  | [] => 0%nat
  | PostCreateTask _ _ _ _ _ _ _ :: rest => S (creations rest)
  | _ :: rest => creations rest
  end.

End Requests.
Export Requests.

(** ** Further vocabulary: the steps of the task-event handler *)

Module Steps.

(** An entry of a dict as [d.get(k)] and [d.get(k, default)] read it. *)
Definition entry (k : string) (d : list (string * json)) : json :=
  match lookup k d with Some v => v | None => JNull end.

Definition entry_or (k : string) (default : json) (d : list (string * json))
  : json :=
  match lookup k d with Some v => v | None => default end.

(** The creation request the handler asks the client for, from the entries
    of the event and of its snapshot, the token, the pattern and the next
    due date. *)
Definition creation_of (fields snapshot : list (string * json))
           (token : string) (recurrence : json) (nd : datetime) : outbound :=
  creation_request token (entry "title" snapshot) (entry "description" snapshot)
                   (entry_or "priority" (JStr "medium") snapshot)
                   (Some nd) recurrence (Some (entry "task_id" fields)).

(** The creation step of the handler on an event with the entries
    [fields] and the snapshot [snapshot]. *)
Definition creation_step (env : Env) (request : Request)
           (fields snapshot : list (string * json)) (recurrence : json)
           (nd : datetime) : M json :=
  Events.create_next_occurrence env request (JObj snapshot)
    (entry "user_id" fields) (entry "task_id" fields) recurrence nd.

(** What the outer [except] clause of the handler and then the route make
    of an outcome of the handler's [try] block: a dict goes out with a 200;
    an exception meets the logger call of the [except] clause, which raises
    when [ERROR] is enabled, so that the route answers 500, and else
    returns, so that the dict [FAILED] goes out with a 200. *)
Definition internal_error : http_response :=
  mkResponse HTTP_500_INTERNAL_SERVER_ERROR (JStr "Internal Server Error").

Definition answer_of (env : Env) (out : result json * World)
  : result http_response * World :=
  match out with
  | (Ok d, w') => (Ok (mkResponse HTTP_200_OK d), w')
  | (Raise e, w') =>
      if isEnabledFor env ERROR then (Ok internal_error, w')
      else (Ok (mkResponse HTTP_200_OK
                  (Events.reply_dict "FAILED" "error" (describe e))), w')
  | (OutOfFuel, w') => (OutOfFuel, w')
  end.

(** The completion time the handler passes to the calculator, the clock
    reading the calculator then compares with, and the anchor these give
    for a previous due date [cd]. *)
Definition completed_at (env : Env) (w : World) : datetime :=
  with_tz None (clock env (ticks w)).



(** The owning service answers every creation request with the status
    [status] and the object [body]. *)
Definition creates (env : Env) (status : Z) (body : list (string * json))
  : Prop :=
  forall n token title description priority recurrence due parent,
    network env n (PostCreateTask token title description priority recurrence
                                  due parent)
    = Response status (Some (JObj body)).


(** Every tag request is answered, with whatever status; and every tag
    request fails. *)
Definition answers_tags (env : Env) : Prop :=
  forall n token tid tag,
    exists status body,
      network env n (PostAddTag token tid tag) = Response status body.

Definition drops_tags (env : Env) : Prop :=
  forall n token tid tag,
    exists e, network env n (PostAddTag token tid tag) = Failure e.

(** A computation that sends at most one creation request. *)
Definition creates_at_most_once {A} (c : M A) : Prop :=
  forall w, exists rest,
    sent (snd (c w)) = (sent w ++ rest)%list /\ (creations rest <= 1)%nat.

End Steps.
Export Steps.

(** ** Further concrete inputs *)

Module MoreExamples.

(** An owning service that creates the task [task-2] and is out of reach
    for every other request. *)
Definition creating_backend (n : nat) (rq : outbound) : reply :=
  match rq with
  | PostCreateTask _ _ _ _ _ _ _ =>
      Response 201 (Some (JObj [("id", JStr "task-2");
                                ("title", JStr "Water the plants")]))
  | _ => Failure TransportError
  end.

Definition env_creating (now : datetime) : Env :=
  mkEnv (fun _ => now) creating_backend parse_examples (levelno WARNING).

(** An owning service that creates the task [task-2] and accepts its
    tags. *)
Definition accepting_backend (n : nat) (rq : outbound) : reply :=
  match rq with
  | PostCreateTask _ _ _ _ _ _ _ =>
      Response 201 (Some (JObj [("id", JStr "task-2");
                                ("title", JStr "Water the plants")]))
  | PostAddTag _ _ _ => Response 201 (Some (JObj []))
  | _ => Failure TransportError
  end.

Definition env_accepting (now : datetime) : Env :=
  mkEnv (fun _ => now) accepting_backend parse_examples (levelno WARNING).

End MoreExamples.
Export MoreExamples.

(** ** Further vocabulary: how a computation ends *)

Module Outcomes.

(** A computation that ends, by a value or by an exception, in every
    world. *)
Definition halts {A} (c : M A) : Prop := forall w, fst (c w) <> OutOfFuel.

(** A computation with a loop ends in the world [w] once the loop may be
    unfolded often enough. *)
Definition eventually {A} (c : nat -> M A) (w : World) : Prop :=
  exists fuel0, forall fuel, (fuel0 <= fuel)%nat -> fst (c fuel w) <> OutOfFuel.


(** A computation that leaves the log and the standard output as they
    are. *)
Definition recordless {A} (c : M A) : Prop :=
  forall w, logs (snd (c w)) = logs w /\ printed (snd (c w)) = printed w.

(** A computation all of whose return values satisfy [P]. *)
Definition returns_only {A} (P : A -> Prop) (c : M A) : Prop :=
  forall w a w', c w = (Ok a, w') -> P a.

Definition opt_valid (o : option datetime) : Prop :=
  match o with Some d => valid d = true | None => True end.

(** The five values of [status] in the dicts the task-event handler
    returns. *)
Definition outcomes : list string :=
  ["IGNORED"; "FAILED"; "SKIPPED"; "SUCCESS"; "RETRY"].

Definition has_outcome (d : json) : Prop :=
  exists s, get d "status" JNull = Ok (JStr s) /\ In s outcomes.

(** A [due_date] the handler cannot read: a true value that is no string,
    where [.replace] raises [AttributeError], or a string that
    [fromisoformat] rejects with [ValueError]. *)
Definition unreadable_due (env : Env) (v : json) (e : exn) : Prop :=
  truthy v = true /\
  ((e = AttributeError /\ forall s, v <> JStr s) \/
   (e = ValueError /\
    exists s, v = JStr s /\ isoparse env (replace s "Z" "+00:00") = None)).

End Outcomes.
Export Outcomes.

(* ================================================================== *)
(** * Part II: the properties                                           *)
(* ================================================================== *)

(** ** Calendar arithmetic *)

Section Calendar.

Lemma days_in_month_bounds y m : 28 <= days_in_month y m <= 31.
Proof.
  unfold days_in_month.
  destruct (m =? 2); [destruct (is_leap y); lia|].
  destruct ((m =? 4) || (m =? 6) || (m =? 9) || (m =? 11)); lia.
Qed.

Lemma valid_inv d :
  valid d = true ->
  1 <= year d /\ 1 <= month d <= 12 /\
  1 <= day d <= days_in_month (year d) (month d) /\
  0 <= hour d < 24 /\ 0 <= minute d < 60 /\ 0 <= second d < 60 /\
  0 <= microsecond d < 1000000.
Proof.
  unfold valid, MINYEAR.
  rewrite !andb_true_iff, !Z.leb_le, !Z.ltb_lt. tauto.
Qed.

Lemma valid_intro d :
  1 <= year d -> 1 <= month d <= 12 ->
  1 <= day d <= days_in_month (year d) (month d) ->
  0 <= hour d < 24 -> 0 <= minute d < 60 -> 0 <= second d < 60 ->
  0 <= microsecond d < 1000000 ->
  valid d = true.
Proof.
  intros. unfold valid, MINYEAR.
  rewrite !andb_true_iff, !Z.leb_le, !Z.ltb_lt. tauto.
Qed.

Lemma valid_day_le_31 d : valid d = true -> 1 <= day d <= 31.
Proof.
  intros H. apply valid_inv in H.
  pose proof (days_in_month_bounds (year d) (month d)). lia.
Qed.

Lemma same_clock_refl a : same_clock a a.
Proof. repeat split. Qed.

Lemma same_clock_trans a b c : same_clock a b -> same_clock b c -> same_clock a c.
Proof. unfold same_clock. intuition congruence. Qed.

Lemma next_day_ok d : valid d = true -> step_ok d (next_day d).
Proof.
  intros H. pose proof (valid_inv d H) as (Hy & Hm & Hd & Hh & Hmi & Hs & Hu).
  pose proof (days_in_month_bounds (year d) (month d)) as Hb.
  unfold next_day.
  destruct (day d <? days_in_month (year d) (month d)) eqn:E1.
  - apply Z.ltb_lt in E1. split.
    + apply valid_intro; cbn; lia.
    + repeat split.
    + unfold day_rank; cbn; lia.
    + cbn; lia.
  - apply Z.ltb_ge in E1.
    destruct (month d <? 12) eqn:E2.
    + apply Z.ltb_lt in E2. split.
      * apply valid_intro; cbn; try lia.
        pose proof (days_in_month_bounds (year d) (month d + 1)). lia.
      * repeat split.
      * unfold day_rank; cbn; lia.
      * cbn; lia.
    + apply Z.ltb_ge in E2. split.
      * apply valid_intro; cbn; lia.
      * repeat split.
      * unfold day_rank; cbn; lia.
      * cbn; lia.
Qed.

Lemma next_day_slow d :
  valid d = true -> slow_rank (next_day d) <= slow_rank d + 1.
Proof.
  intros H. pose proof (valid_inv d H) as (Hy & Hm & Hd & _).
  pose proof (days_in_month_bounds (year d) (month d)) as Hb.
  unfold next_day, slow_rank.
  destruct (day d <? days_in_month (year d) (month d)) eqn:E1; [cbn; lia|].
  apply Z.ltb_ge in E1.
  destruct (month d <? 12) eqn:E2; cbn; [lia|].
  apply Z.ltb_ge in E2. lia.
Qed.

(** [next_day] and [plus_days] agree with the proleptic Gregorian ordinal,
    through which [datetime + timedelta] is computed: [n] days later, the
    ordinal is [n] more. *)
Lemma days_before_year_succ y :
  days_before_year (y + 1) =
  days_before_year y + (if is_leap y then 366 else 365).
Proof.
  unfold days_before_year, is_leap. cbv zeta.
  replace (y + 1 - 1) with y by lia.
  destruct (y mod 4 =? 0) eqn:E4; destruct (y mod 100 =? 0) eqn:E100;
    destruct (y mod 400 =? 0) eqn:E400; cbn [andb orb negb];
    rewrite ?Z.eqb_eq, ?Z.eqb_neq in *;
    Z.div_mod_to_equations; lia.
Qed.

Lemma days_before_month_from_12 y :
  days_before_month_from y 12 = if is_leap y then 366 else 365.
Proof. cbn. unfold days_in_month. cbn. destruct (is_leap y); reflexivity. Qed.

Lemma toordinal_next_day d :
  valid d = true -> toordinal (next_day d) = toordinal d + 1.
Proof.
  intros H. pose proof (valid_inv d H) as (Hy & Hm & Hd & _).
  unfold next_day, toordinal.
  destruct (day d <? days_in_month (year d) (month d)) eqn:E1; [cbn; lia|].
  apply Z.ltb_ge in E1.
  destruct (month d <? 12) eqn:E2; cbn [year month day with_date].
  - apply Z.ltb_lt in E2.
    replace (month d + 1 - 1) with (month d) by lia.
    replace (Z.to_nat (month d)) with (S (Z.to_nat (month d - 1))) by lia.
    cbn [days_before_month_from].
    replace (Z.of_nat (S (Z.to_nat (month d - 1)))) with (month d) by lia.
    lia.
  - apply Z.ltb_ge in E2. assert (month d = 12) as Em by lia.
    rewrite days_before_year_succ. rewrite Em.
    change (Z.to_nat (12 - 1)) with 11%nat. change (Z.to_nat (1 - 1)) with 0%nat.
    pose proof (days_before_month_from_12 (year d)) as H12.
    cbn [days_before_month_from] in *.
    rewrite Em in *. change (Z.of_nat 12) with 12 in *.
    lia.
Qed.

Lemma toordinal_plus_days n d :
  valid d = true -> toordinal (plus_days n d) = toordinal d + Z.of_nat n.
Proof.
  revert d. induction n as [|n IH]; intros d H; cbn [plus_days]; [lia|].
  destruct (next_day_ok d H) as [Hv _ _ _].
  rewrite (IH _ Hv), (toordinal_next_day d H). lia.
Qed.

Lemma plus_days_facts n d :
  valid d = true ->
  valid (plus_days n d) = true /\ same_clock d (plus_days n d) /\
  day_rank d + Z.of_nat n <= day_rank (plus_days n d) /\
  year d <= year (plus_days n d) /\
  slow_rank (plus_days n d) <= slow_rank d + Z.of_nat n.
Proof.
  revert d. induction n as [|n IH]; intros d H; cbn [plus_days].
  - repeat split; try lia. assumption.
  - destruct (next_day_ok d H) as [Hv Hc Hr Hy].
    destruct (IH _ Hv) as (Hv' & Hc' & Hr' & Hy' & Hs').
    pose proof (next_day_slow d H).
    repeat split; try lia; try assumption.
    all: try (destruct Hc as (?&?&?&?&?), Hc' as (?&?&?&?&?); congruence).
Qed.

Lemma plus_days_ok n d :
  valid d = true -> (0 < n < 300)%nat -> step_ok d (plus_days n d).
Proof.
  intros H Hn.
  destruct (plus_days_facts n d H) as (Hv & Hc & Hr & Hy & Hs).
  split; try assumption; try lia.
  split; [assumption|].
  pose proof (valid_inv _ H) as (_ & Hm & _).
  pose proof (valid_day_le_31 _ H).
  pose proof (valid_inv _ Hv) as (_ & Hm' & Hd' & _).
  unfold slow_rank in Hs. lia.
Qed.

Lemma plus_month_ok d : valid d = true -> step_ok d (plus_month d).
Proof.
  intros H. pose proof (valid_inv d H) as (Hy & Hm & Hd & Hh & Hmi & Hs & Hu).
  pose proof (valid_day_le_31 _ H) as H31.
  unfold plus_month.
  destruct (month d + 1 >? 12) eqn:E.
  - pose proof (days_in_month_bounds (year d + 1) (month d + 1 - 12)).
    split.
    + apply valid_intro; cbn; lia.
    + repeat split.
    + unfold day_rank; cbn; lia.
    + cbn; lia.
  - pose proof (days_in_month_bounds (year d) (month d + 1)).
    assert (month d + 1 <= 12) by (rewrite Z.gtb_ltb in E; apply Z.ltb_ge in E; lia).
    split.
    + apply valid_intro; cbn; lia.
    + repeat split.
    + unfold day_rank; cbn; lia.
    + cbn; lia.
Qed.

End Calendar.

(** ** The order on naive values *)

Section Order.

Lemma lex_opp c1 c2 : CompOpp (lex c1 c2) = lex (CompOpp c1) (CompOpp c2).
Proof. destruct c1; reflexivity. Qed.

Lemma cmp_fields_antisym a b : cmp_fields b a = CompOpp (cmp_fields a b).
Proof.
  unfold cmp_fields. rewrite !lex_opp, <- !Z.compare_antisym. reflexivity.
Qed.

Lemma cmp_fields_with_tz tz tz' a b :
  cmp_fields (with_tz tz a) (with_tz tz' b) = cmp_fields a b.
Proof. reflexivity. Qed.

Lemma cmp_fields_year_gt a b : year b < year a -> cmp_fields a b = Gt.
Proof.
  intros H. unfold cmp_fields.
  rewrite (proj2 (Z.compare_gt_iff _ _) H). reflexivity.
Qed.

Lemma cmp_fields_year_lt a b : year a < year b -> cmp_fields a b = Lt.
Proof.
  intros H. unfold cmp_fields.
  rewrite (proj2 (Z.compare_lt_iff _ _) H). reflexivity.
Qed.

Lemma cmp_fields_month_gt a b :
  year a = year b -> month b < month a -> cmp_fields a b = Gt.
Proof.
  intros Hy H. unfold cmp_fields.
  rewrite Hy, Z.compare_refl, (proj2 (Z.compare_gt_iff _ _) H). reflexivity.
Qed.

Lemma cmp_fields_month_lt a b :
  year a = year b -> month a < month b -> cmp_fields a b = Lt.
Proof.
  intros Hy H. unfold cmp_fields.
  rewrite Hy, Z.compare_refl, (proj2 (Z.compare_lt_iff _ _) H). reflexivity.
Qed.

Lemma cmp_fields_day_gt a b :
  year a = year b -> month a = month b -> day b < day a -> cmp_fields a b = Gt.
Proof.
  intros Hy Hm H. unfold cmp_fields.
  rewrite Hy, Hm, !Z.compare_refl, (proj2 (Z.compare_gt_iff _ _) H).
  reflexivity.
Qed.

Lemma cmp_fields_day_lt a b :
  year a = year b -> month a = month b -> day a < day b -> cmp_fields a b = Lt.
Proof.
  intros Hy Hm H. unfold cmp_fields.
  rewrite Hy, Hm, !Z.compare_refl, (proj2 (Z.compare_lt_iff _ _) H).
  reflexivity.
Qed.

(** [a <= b] on the fields bounds the day count and the year. *)
Lemma cmp_le_rank a b :
  valid a = true -> valid b = true -> cmp_fields a b <> Gt ->
  day_rank a <= day_rank b /\ year a <= year b.
Proof.
  intros Ha Hb H.
  pose proof (valid_inv _ Ha) as (_ & Hma & _).
  pose proof (valid_inv _ Hb) as (_ & Hmb & _).
  pose proof (valid_day_le_31 _ Ha). pose proof (valid_day_le_31 _ Hb).
  unfold day_rank.
  destruct (Z.compare_spec (year a) (year b)) as [Ey|Ey|Ey];
    [ | split; lia | exfalso; apply H, cmp_fields_year_gt, Ey ].
  destruct (Z.compare_spec (month a) (month b)) as [Em|Em|Em];
    [ | split; lia | exfalso; apply H, cmp_fields_month_gt; assumption ].
  destruct (Z.compare_spec (day a) (day b)) as [Ed|Ed|Ed];
    [ split; lia | split; lia
    | exfalso; apply H, cmp_fields_day_gt; assumption ].
Qed.

(** A later day with the same time of day is a later value. *)
Lemma rank_lt_cmp a b :
  valid a = true -> valid b = true -> same_clock a b ->
  day_rank a < day_rank b -> cmp_fields a b = Lt.
Proof.
  intros Ha Hb _ Hr.
  pose proof (valid_inv _ Ha) as (_ & Hma & _).
  pose proof (valid_inv _ Hb) as (_ & Hmb & _).
  pose proof (valid_day_le_31 _ Ha). pose proof (valid_day_le_31 _ Hb).
  unfold day_rank in Hr.
  destruct (Z.compare_spec (year a) (year b)) as [Ey|Ey|Ey];
    [ | apply cmp_fields_year_lt, Ey | lia ].
  destruct (Z.compare_spec (month a) (month b)) as [Em|Em|Em];
    [ | apply cmp_fields_month_lt; assumption | lia ].
  apply cmp_fields_day_lt; try assumption. lia.
Qed.

Lemma le_naive a b :
  naive a = true -> naive b = true ->
  le a b = Ok (match cmp_fields a b with Gt => false | _ => true end).
Proof.
  unfold le, compare, naive. destruct (tzinfo a), (tzinfo b); try discriminate.
  intros _ _. destruct (cmp_fields a b); reflexivity.
Qed.

Lemma lt_naive a b :
  naive a = true -> naive b = true ->
  lt a b = Ok (match cmp_fields a b with Lt => true | _ => false end).
Proof.
  unfold lt, compare, naive. destruct (tzinfo a), (tzinfo b); try discriminate.
  intros _ _. destruct (cmp_fields a b); reflexivity.
Qed.

(** An aware value cannot be ordered against a naive one. *)
Lemma le_aware_naive a b :
  naive a = false -> naive b = true -> le a b = Raise TypeError.
Proof.
  unfold le, compare, naive. destruct (tzinfo a), (tzinfo b); try discriminate.
  reflexivity.
Qed.

(** [now < d] and [d <= now] exclude each other, whatever the values. *)
Lemma lt_not_le now d : lt now d = Ok true -> le d now = Ok false.
Proof.
  unfold lt, le, compare.
  destruct (tzinfo now), (tzinfo d); try discriminate.
  - rewrite (Z.compare_antisym (utc_instant now _) (utc_instant d _)).
    destruct (utc_instant now _ ?= utc_instant d _); cbn; congruence.
  - rewrite (cmp_fields_antisym now d).
    destruct (cmp_fields now d); cbn; congruence.
Qed.

End Order.

(** ** The recurrence calculator *)

Section RecurrenceFacts.

Lemma recurring_cases p :
  recurring p ->
  (p =? "daily")%string = true \/
  ((p =? "daily")%string = false /\ (p =? "weekly")%string = true) \/
  ((p =? "daily")%string = false /\ (p =? "weekly")%string = false /\
   (p =? "monthly")%string = true).
Proof. intros [-> | [-> | ->]]; cbn; auto. Qed.

Lemma recurring_not_none p : recurring p -> (p =? "none")%string = false.
Proof. intros [-> | [-> | ->]]; reflexivity. Qed.

(** One interval of a recurring pattern is a calendar step. *)
Lemma plus_interval_ok p d :
  recurring p -> valid d = true -> step_ok d (plus_interval p d).
Proof.
  intros [-> | [-> | ->]] H.
  - change (plus_interval "daily" d) with (plus_days 1 d).
    apply plus_days_ok; [assumption | lia].
  - change (plus_interval "weekly" d) with (plus_days 7 d).
    apply plus_days_ok; [assumption | lia].
  - change (plus_interval "monthly" d) with (plus_month d).
    apply plus_month_ok; assumption.
Qed.

(** An interval leaves the [tzinfo] alone, valid value or not. *)
Lemma tzinfo_next_day d : tzinfo (next_day d) = tzinfo d.
Proof.
  unfold next_day.
  destruct (day d <? days_in_month (year d) (month d)); [reflexivity|].
  destruct (month d <? 12); reflexivity.
Qed.

Lemma tzinfo_plus_days n d : tzinfo (plus_days n d) = tzinfo d.
Proof.
  revert d. induction n as [|n IH]; intros d; cbn [plus_days]; [reflexivity|].
  rewrite IH. apply tzinfo_next_day.
Qed.

Lemma tzinfo_plus_interval p d : tzinfo (plus_interval p d) = tzinfo d.
Proof.
  unfold plus_interval.
  destruct (p =? "daily")%string; [apply tzinfo_plus_days|].
  destruct (p =? "weekly")%string; [apply tzinfo_plus_days|].
  destruct (p =? "monthly")%string; reflexivity.
Qed.

(** [advance] computes [plus_interval] or, after [MAXYEAR], raises. *)
Lemma advance_cases p d :
  recurring p ->
  (in_range (plus_interval p d) = true /\
   advance (JStr p) d = Ok (plus_interval p d)) \/
  (in_range (plus_interval p d) = false /\
   exists e, advance (JStr p) d = Raise e).
Proof.
  intros [-> | [-> | ->]]; unfold advance, plus_interval, add_days, add_month; cbn;
    match goal with
    | |- context [in_range ?x] => destruct (in_range x)
    end; eauto.
Qed.

Lemma advance_in_range p now d :
  recurring p -> valid d = true -> year d <= year now -> year now < MAXYEAR ->
  advance (JStr p) d = Ok (plus_interval p d).
Proof.
  intros Hp Hv Hy Hn.
  destruct (advance_cases p d Hp) as [[_ H] | [H _]]; [assumption|].
  destruct (plus_interval_ok p d Hp Hv) as [_ _ _ Hy'].
  unfold in_range in H. apply Z.leb_gt in H. lia.
Qed.

Lemma plus_intervals_snoc p k d :
  plus_intervals p (S k) d = plus_interval p (plus_intervals p k d).
Proof.
  revert d. induction k as [|k IH]; intros d; [reflexivity|].
  cbn [plus_intervals] in *. rewrite <- IH. reflexivity.
Qed.

(** Whatever the loop returns is the candidate it started from, some
    intervals later. *)
Lemma future_correction_shape p now fuel :
  recurring p ->
  forall d r, future_correction fuel (JStr p) now d = Ok r ->
              exists k, r = plus_intervals p k d.
Proof.
  intros Hp. induction fuel as [|fuel IH]; intros d r H; [discriminate|].
  cbn [future_correction] in H.
  destruct (le d now) as [[|]| |]; try discriminate.
  - destruct (advance_cases p d Hp) as [[_ E] | [_ [e E]]]; rewrite E in H;
      [|discriminate].
    destruct (IH _ _ H) as [k ->]. exists (S k). reflexivity.
  - injection H as <-. exists 0%nat. reflexivity.
Qed.

(** The loop on naive values: with [n] bounding the days still to go and
    more than [n] unfoldings, it returns the first candidate strictly after
    [now]. *)
Lemma future_correction_naive p now :
  recurring p -> valid now = true -> naive now = true -> year now < MAXYEAR ->
  forall n d fuel,
    valid d = true -> naive d = true ->
    day_rank now - day_rank d < Z.of_nat n -> (n < fuel)%nat ->
    exists k,
      future_correction fuel (JStr p) now d = Ok (plus_intervals p k d) /\
      cmp_fields now (plus_intervals p k d) = Lt /\
      (forall j, (j < k)%nat -> cmp_fields (plus_intervals p j d) now <> Gt) /\
      valid (plus_intervals p k d) = true /\
      naive (plus_intervals p k d) = true /\
      (k <= n)%nat.
Proof.
  intros Hp Hnow Hnn Hny.
  induction n as [|n IH]; intros d fuel Hd Hdn Hr Hf;
    (destruct fuel as [|fuel]; [lia|]); cbn [future_correction];
    rewrite (le_naive d now Hdn Hnn);
    destruct (cmp_fields d now) eqn:E.
  1,2: exfalso;
       assert (Hne : cmp_fields d now <> Gt) by (rewrite E; discriminate);
       destruct (cmp_le_rank d now Hd Hnow Hne); lia.
  1,4: exists 0%nat; cbn [plus_intervals]; rewrite (cmp_fields_antisym d now), E;
       repeat split; auto; intros; lia.
  all: assert (Hne : cmp_fields d now <> Gt) by (rewrite E; discriminate);
       destruct (cmp_le_rank d now Hd Hnow Hne) as [Hrk Hyr];
       rewrite (advance_in_range p now d Hp Hd Hyr Hny);
       destruct (plus_interval_ok p d Hp Hd) as [Hv' Hc' Hr' Hy'];
       assert (Hn' : naive (plus_interval p d) = true)
         by (unfold naive in *; destruct Hc' as (_&_&_&_&<-); assumption);
       destruct (IH (plus_interval p d) fuel Hv' Hn' ltac:(lia) ltac:(lia))
         as (k & Hk1 & Hk2 & Hk3 & Hk4 & Hk5 & Hk6);
       exists (S k); cbn [plus_intervals];
       repeat split; auto; try lia;
       intros [|j] Hj; cbn [plus_intervals]; [rewrite E; discriminate|];
       apply Hk3; lia.
Qed.

End RecurrenceFacts.

Section CalculatorFacts.

(** The first candidate on a recurring pattern: one interval after the
    anchor; the clock is read only for an anchor that is neither a previous
    due date nor a completion time. *)
Lemma first_candidate_run env cd ca p w :
  recurring p ->
  first_candidate env cd (JStr p) ca w =
  (match advance (JStr p) (anchor cd ca (reading env w 0)) with
   | Ok first => Ok (Some first)
   | Raise e => Raise e
   | OutOfFuel => OutOfFuel
   end,
   mkWorld (ticks w + anchor_ticks cd ca) (logs w) (sent w) (printed w)).
Proof.
  intros Hp. destruct w as [t l s pr].
  unfold first_candidate, advance, reading.
  change (eq_str (JStr p) "daily") with (String.eqb p "daily").
  change (eq_str (JStr p) "weekly") with (String.eqb p "weekly").
  change (eq_str (JStr p) "monthly") with (String.eqb p "monthly").
  destruct (recurring_cases p Hp) as [E1 | [[E1 E2] | [E1 [E2 E3]]]];
    rewrite ?E1, ?E2, ?E3;
    destruct cd as [d|]; [|destruct ca as [c|]| |destruct ca as [c|]| |destruct ca as [c|]];
    unfold bind, base_date, utcnow, ret, lift, anchor, anchor_ticks;
    cbn [ticks logs sent printed];
    rewrite ?Nat.add_0_r, ?Nat.add_1_r;
    match goal with
    | |- context [add_days ?a ?n] => destruct (add_days a n); reflexivity
    | |- context [add_month ?a] => destruct (add_month a); reflexivity
    end.
Qed.

(** The calculator on a recurring pattern, step by step: the anchor, the
    first candidate, the clock reading, the loop, the logger call, which
    raises when [INFO] is enabled. *)
Lemma calculate_next_due_run env fuel cd ca p w :
  recurring p ->
  calculate_next_due env fuel cd (JStr p) ca w =
  let t1 := (ticks w + anchor_ticks cd ca)%nat in
  match advance (JStr p) (anchor cd ca (reading env w 0)) with
  | Ok first =>
      match future_correction fuel (JStr p)
                              (reading env w (anchor_ticks cd ca)) first with
      | Ok r =>
          (if isEnabledFor env INFO then Raise TypeError else Ok (Some r),
           mkWorld (S t1) (logs w) (sent w) (printed w))
      | Raise e => (Raise e, mkWorld (S t1) (logs w) (sent w) (printed w))
      | OutOfFuel => (OutOfFuel, mkWorld (S t1) (logs w) (sent w) (printed w))
      end
  | Raise e => (Raise e, mkWorld t1 (logs w) (sent w) (printed w))
  | OutOfFuel => (OutOfFuel, mkWorld t1 (logs w) (sent w) (printed w))
  end.
Proof.
  intros Hp. unfold calculate_next_due.
  change (eq_str (JStr p) "none") with (String.eqb p "none").
  rewrite (recurring_not_none p Hp).
  unfold bind at 1. rewrite (first_candidate_run env cd ca p w Hp).
  cbv zeta.
  destruct (advance (JStr p) (anchor cd ca (reading env w 0))) as [first|e|];
    try reflexivity.
  unfold bind, utcnow, lift, log_kw, ret, reading.
  cbn [ticks logs sent printed].
  destruct (future_correction fuel (JStr p) _ first); try reflexivity.
  destruct (isEnabledFor env INFO); reflexivity.
Qed.

(** On any other pattern than the four the calculator meets its warning:
    the call ends with the [TypeError] of the logger when [WARNING] is
    enabled and returns [None] when it is not; no record is made. *)
Lemma calculate_next_due_unknown env fuel cd ca w s :
  s <> "none" -> ~ recurring s ->
  calculate_next_due env fuel cd (JStr s) ca w =
  (if isEnabledFor env WARNING then Raise TypeError else Ok None,
   mkWorld (ticks w + anchor_ticks cd ca) (logs w) (sent w) (printed w)).
Proof.
  intros Hnone Hrec.
  assert (E0 : (s =? "none")%string = false) by (apply String.eqb_neq; assumption).
  assert (E1 : (s =? "daily")%string = false)
    by (apply String.eqb_neq; intros ->; apply Hrec; left; reflexivity).
  assert (E2 : (s =? "weekly")%string = false)
    by (apply String.eqb_neq; intros ->; apply Hrec; right; left; reflexivity).
  assert (E3 : (s =? "monthly")%string = false)
    by (apply String.eqb_neq; intros ->; apply Hrec; right; right; reflexivity).
  destruct w as [t l sn pr].
  unfold calculate_next_due, first_candidate.
  change (eq_str (JStr s) "none") with (String.eqb s "none").
  change (eq_str (JStr s) "daily") with (String.eqb s "daily").
  change (eq_str (JStr s) "weekly") with (String.eqb s "weekly").
  change (eq_str (JStr s) "monthly") with (String.eqb s "monthly").
  rewrite E0, E1, E2, E3.
  destruct cd as [d|]; [|destruct ca as [c|]];
    unfold bind, base_date, utcnow, ret, log_kw, anchor_ticks;
    cbn [ticks logs sent printed];
    rewrite ?Nat.add_0_r, ?Nat.add_1_r;
    destruct (isEnabledFor env WARNING); reflexivity.
Qed.

(** With the readings of the clock well formed and the anchor usable, the
    loop ends, once it has [loop_bound] unfoldings, at the anchor [S k]
    intervals later, for the least [k] that is strictly after the clock
    reading; the call returns that value when [INFO] is not enabled and
    ends with the [TypeError] of the logger when it is. *)
Lemma calculate_next_due_returns env cd ca p w :
  recurring p -> opt_usable cd -> opt_usable ca -> clock_ok env ->
  let a := anchor cd ca (reading env w 0) in
  let now := reading env w (anchor_ticks cd ca) in
  forall fuel, (loop_bound now (plus_interval p a) <= fuel)%nat ->
  exists k,
    calculate_next_due env fuel cd (JStr p) ca w =
      (if isEnabledFor env INFO then Raise TypeError
       else Ok (Some (plus_intervals p (S k) a)),
       mkWorld (S (ticks w + anchor_ticks cd ca))
               (logs w) (sent w) (printed w)) /\
    lt now (plus_intervals p (S k) a) = Ok true /\
    naive (plus_intervals p (S k) a) = true /\
    (forall j, (j < k)%nat -> le (plus_intervals p (S j) a) now = Ok true).
Proof.
  intros Hp Hcd Hca Hclk a now fuel Hfuel.
  assert (Hrd : forall k, usable (reading env w k)).
  { intros k. destruct (Hclk (ticks w + k)%nat) as [Hv Hy].
    repeat split; assumption. }
  assert (Ha : usable a).
  { subst a. destruct cd as [d|]; [exact Hcd|].
    destruct ca as [c|]; [exact Hca|]. apply Hrd. }
  destruct Ha as (Hav & Han & Hay).
  destruct (Hrd (anchor_ticks cd ca)) as (Hnv & Hnn & Hny). fold now in Hnv, Hnn, Hny.
  destruct (plus_interval_ok p a Hp Hav) as [Hfv Hfc Hfr Hfy].
  assert (Hfn : naive (plus_interval p a) = true).
  { unfold naive in *. destruct Hfc as (_&_&_&_&<-). assumption. }
  assert (Hadv : advance (JStr p) a = Ok (plus_interval p a)).
  { apply (advance_in_range p a a); auto; lia. }
  set (n := Z.to_nat (day_rank now - day_rank (plus_interval p a) + 1)).
  destruct (future_correction_naive p now Hp Hnv Hnn Hny n (plus_interval p a) fuel
              Hfv Hfn) as (k & Hk1 & Hk2 & Hk3 & Hk4 & Hk5 & _).
  { subst n. lia. }
  { unfold loop_bound in Hfuel. fold n in Hfuel. lia. }
  exists k.
  rewrite (calculate_next_due_run env fuel cd ca p w Hp).
  cbv zeta. fold a. rewrite Hadv. fold now. rewrite Hk1.
  cbn [plus_intervals].
  repeat split.
  - rewrite (lt_naive _ _ Hnn Hk5), Hk2. reflexivity.
  - assumption.
  - intros j Hj. specialize (Hk3 j Hj).
    assert (Hjn : naive (plus_intervals p j (plus_interval p a)) = true).
    { clear - Hp Hfv Hfn. revert Hfv Hfn. generalize (plus_interval p a).
      induction j as [|j IH]; intros d Hv Hn; cbn [plus_intervals]; [assumption|].
      destruct (plus_interval_ok p d Hp Hv) as [Hv' Hc' _ _].
      apply IH; [assumption|].
      unfold naive in *. destruct Hc' as (_&_&_&_&<-). assumption. }
    rewrite (le_naive _ _ Hjn Hnn).
    destruct (cmp_fields (plus_intervals p j (plus_interval p a)) now);
      congruence.
Qed.

(** Enough unfoldings of the loop always finish, with a value or with an
    exception, whatever the candidate. *)
Lemma future_correction_finishes p now :
  recurring p -> valid now = true -> naive now = true ->
  forall n d fuel,
    valid d = true ->
    day_rank now - day_rank d < Z.of_nat n -> (n < fuel)%nat ->
    future_correction fuel (JStr p) now d <> OutOfFuel.
Proof.
  intros Hp Hnow Hnn.
  induction n as [|n IH]; intros d fuel Hd Hr Hf;
    (destruct fuel as [|fuel]; [lia|]); cbn [future_correction];
    (destruct (naive d) eqn:Hdn;
     [ rewrite (le_naive d now Hdn Hnn)
     | rewrite (le_aware_naive d now Hdn Hnn); discriminate ]);
    destruct (cmp_fields d now) eqn:E; try discriminate.
  1,2: exfalso;
       assert (Hne : cmp_fields d now <> Gt) by (rewrite E; discriminate);
       destruct (cmp_le_rank d now Hd Hnow Hne); lia.
  all: assert (Hne : cmp_fields d now <> Gt) by (rewrite E; discriminate);
       destruct (cmp_le_rank d now Hd Hnow Hne) as [Hrk Hyr];
       destruct (advance_cases p d Hp) as [[_ Ea] | [_ [e Ea]]]; rewrite Ea;
       [|discriminate];
       destruct (plus_interval_ok p d Hp Hd) as [Hv' _ Hr' _];
       apply IH; [assumption | lia | lia].
Qed.

(** Every value the call returns is the anchor plus one or more
    intervals. *)
Lemma calculate_next_due_result_shape env fuel cd ca p w r w' :
  recurring p ->
  calculate_next_due env fuel cd (JStr p) ca w = (Ok (Some r), w') ->
  exists k, r = plus_intervals p (S k) (anchor cd ca (reading env w 0)).
Proof.
  intros Hp H.
  rewrite (calculate_next_due_run env fuel cd ca p w Hp) in H. cbv zeta in H.
  destruct (advance_cases p (anchor cd ca (reading env w 0)) Hp)
    as [[_ E] | [_ [e E]]]; rewrite E in H; [|discriminate].
  destruct (future_correction fuel (JStr p) _ _) as [r'| |] eqn:F;
    try discriminate.
  destruct (isEnabledFor env INFO); [discriminate|].
  injection H as <- _.
  destruct (future_correction_shape p _ fuel Hp _ _ F) as [k ->].
  exists k. reflexivity.
Qed.

(** An aware previous due date makes the loop test raise, on every
    recurring pattern, as soon as the first candidate exists. *)
Lemma calculate_next_due_aware_raises env cd ca p w fuel :
  recurring p -> naive cd = false -> in_range (plus_interval p cd) = true ->
  calculate_next_due env (S fuel) (Some cd) (JStr p) ca w =
  (Raise TypeError, mkWorld (S (ticks w)) (logs w) (sent w) (printed w)).
Proof.
  intros Hp Hcd Hin.
  rewrite (calculate_next_due_run env (S fuel) (Some cd) ca p w Hp). cbv zeta.
  change (anchor (Some cd) ca (reading env w 0)) with cd.
  change (anchor_ticks (Some cd) ca) with 0%nat. rewrite Nat.add_0_r.
  destruct (advance_cases p cd Hp) as [[_ E] | [E _]]; [|congruence].
  rewrite E. cbn [future_correction].
  rewrite le_aware_naive; [reflexivity | | reflexivity].
  unfold naive in *. rewrite tzinfo_plus_interval. assumption.
Qed.

End CalculatorFacts.

(** ** Properties of [calculate_next_due] *)

Section CalculatorClaims.

(** C3, at an unknown pattern: the call meets the logger call of line 42,
    whose keyword argument [pattern] the logger does not take.  With logging
    as Python starts it, and as [configure_logging] sets it up by default,
    [WARNING] is enabled and the call ends with [TypeError] instead of
    returning [None]; only with the warnings turned off does it return
    [None], and then no warning is logged. *)
Theorem calculate_next_due_unknown_pattern_raises :
  calculate_next_due (env_at (midnight 2025 1 8) unreachable) 3
                     (Some (midnight 2025 1 1)) (JStr "yearly") None world0
  = (Raise TypeError, world0) /\
  calculate_next_due (env_configured (midnight 2025 1 8) unreachable) 3
                     (Some (midnight 2025 1 1)) (JStr "yearly") None world0
  = (Raise TypeError, world0) /\
  calculate_next_due (env_silenced (midnight 2025 1 8) unreachable) 3
                     (Some (midnight 2025 1 1)) (JStr "yearly") None world0
  = (Ok None, world0).
Proof. repeat split. Qed.

(** The pattern ["none"] returns [None] at once, whatever the other
    arguments and the state of logging. *)
Lemma calculate_next_due_none env fuel cd ca w :
  calculate_next_due env fuel cd (JStr "none") ca w = (Ok None, w).
Proof. reflexivity. Qed.

(** C2: on a recurring pattern the calculator anchors on the previous due
    date when there is one, else on the completion time when there is one,
    else on the clock (the only case that costs a clock reading), and its
    first candidate is the anchor plus one interval of the pattern
    ([plus_interval]: one day, seven days, one calendar month).  The rest
    of the call starts from that candidate: when it is strictly after the
    reading [now] the loop keeps it; every value the call returns is the
    anchor plus one or more intervals; and on usable values the loop ends
    at the first such value strictly after [now].  The logger call that
    follows the loop raises [TypeError] when [INFO] is enabled; the call
    returns the value when it is not.  With no previous due date and a
    completion time [T] the anchor is [T]. *)
Theorem calculate_next_due_anchor env cd ca p w :
  recurring p ->
  let a := anchor cd ca (reading env w 0) in
  let now := reading env w (anchor_ticks cd ca) in
  (in_range (plus_interval p a) = true ->
   first_candidate env cd (JStr p) ca w =
     (Ok (Some (plus_interval p a)),
      mkWorld (ticks w + anchor_ticks cd ca) (logs w) (sent w) (printed w))) /\
  (in_range (plus_interval p a) = true ->
   lt now (plus_interval p a) = Ok true ->
   forall fuel, (0 < fuel)%nat ->
     calculate_next_due env fuel cd (JStr p) ca w =
       (if isEnabledFor env INFO then Raise TypeError
        else Ok (Some (plus_interval p a)),
        mkWorld (S (ticks w + anchor_ticks cd ca))
                (logs w) (sent w) (printed w))) /\
  (forall fuel r w',
     calculate_next_due env fuel cd (JStr p) ca w = (Ok (Some r), w') ->
     exists k, r = plus_intervals p (S k) a) /\
  (opt_usable cd -> opt_usable ca -> clock_ok env ->
   forall fuel, (loop_bound now (plus_interval p a) <= fuel)%nat ->
   exists k,
     fst (calculate_next_due env fuel cd (JStr p) ca w) =
       (if isEnabledFor env INFO then Raise TypeError
        else Ok (Some (plus_intervals p (S k) a))) /\
     lt now (plus_intervals p (S k) a) = Ok true /\
     (forall j, (j < k)%nat -> le (plus_intervals p (S j) a) now = Ok true)) /\
  (forall T, cd = None -> ca = Some T -> a = T).
Proof.
  intros Hp a now. split; [|split; [|split; [|split]]].
  - intros Hin.
    rewrite (first_candidate_run env cd ca p w Hp). fold a.
    destruct (advance_cases p a Hp) as [[_ E] | [E _]]; [|congruence].
    rewrite E. reflexivity.
  - intros Hin Hlt fuel Hfuel.
    rewrite (calculate_next_due_run env fuel cd ca p w Hp). cbv zeta.
    fold a now.
    destruct (advance_cases p a Hp) as [[_ E] | [E _]]; [|congruence].
    rewrite E. destruct fuel as [|fuel]; [lia|].
    cbn [future_correction]. rewrite (lt_not_le _ _ Hlt). reflexivity.
  - intros fuel r w' H.
    exact (calculate_next_due_result_shape env fuel cd ca p w r w' Hp H).
  - intros Hcd Hca Hclk fuel Hfuel.
    destruct (calculate_next_due_returns env cd ca p w Hp Hcd Hca Hclk fuel Hfuel)
      as (k & Hk1 & Hk2 & _ & Hk4).
    exists k. rewrite Hk1. auto.
  - intros T -> ->. reflexivity.
Qed.

Lemma calculate_next_due_anchor_witness :
  calculate_next_due (env_at (at_time 2025 3 10 9 0 5) unreachable) 1
                     None (JStr "daily") (Some (at_time 2025 3 10 9 0 0)) world0
  = (Ok (Some (at_time 2025 3 11 9 0 0)), mkWorld 1 [] [] []).
Proof.
  apply (proj1 (proj2 (calculate_next_due_anchor
                  (env_at (at_time 2025 3 10 9 0 5) unreachable)
                  None (Some (at_time 2025 3 10 9 0 0)) "daily" world0
                  (or_introl eq_refl)))).
  - reflexivity.
  - reflexivity.
  - lia.
Defined.

(** The example of the specification on naive values, with logging as
    Python starts it: a weekly task due 2025-01-01T00:00, the clock at
    2025-01-08T00:00, gives 2025-01-15T00:00; once [configure_logging] has
    enabled [INFO], the same call raises. *)
Example weekly_example_naive :
  calculate_next_due (env_at (midnight 2025 1 8) unreachable) 3
                     (Some (midnight 2025 1 1)) (JStr "weekly") None world0
  = (Ok (Some (midnight 2025 1 15)), mkWorld 1 [] [] []) /\
  calculate_next_due (env_configured (midnight 2025 1 8) unreachable) 3
                     (Some (midnight 2025 1 1)) (JStr "weekly") None world0
  = (Raise TypeError, mkWorld 1 [] [] []).
Proof. split; reflexivity. Qed.

(** C1, at the input the event handler builds from the due date
    [2025-01-01T00:00Z] of the specification's example: the previous due
    date is the aware value 2025-01-01T00:00+00:00, the pattern is weekly,
    the clock reads 2025-01-08T00:00.  The call makes the first candidate,
    reads the clock, and raises [TypeError] at the loop test instead of
    returning 2025-01-15T00:00. *)
Theorem weekly_example_aware_raises :
  calculate_next_due (env_at (midnight 2025 1 8) unreachable) 3
                     (Some (midnight_utc 2025 1 1)) (JStr "weekly") None world0
  = (Raise TypeError, mkWorld 1 [] [] []).
Proof. reflexivity. Qed.

(** The same call raises at the same place whatever the state of
    logging: no logger call comes before the loop test. *)
Example weekly_example_aware_raises_at_every_level lvl :
  calculate_next_due (env_logging lvl (midnight 2025 1 8) unreachable) 3
                     (Some (midnight_utc 2025 1 1)) (JStr "weekly") None world0
  = (Raise TypeError, mkWorld 1 [] [] []).
Proof. reflexivity. Qed.

(** C10, at a monthly task whose previous due date, months in the past, is
    an aware value: the loop is left at its first test by [TypeError],
    whatever the number of iterations allowed, and no candidate after [now]
    is reached; and at the same task with a naive due date once
    [configure_logging] has enabled [INFO]: the loop ends at 2025-06-28, and
    the logger call after it raises, so that the call still returns
    nothing. *)
Theorem calculate_next_due_not_total :
  (forall fuel,
     calculate_next_due (env_at (midnight 2025 6 1) unreachable) (S fuel)
                        (Some (midnight_utc 2025 1 31)) (JStr "monthly") None
                        world0
     = (Raise TypeError, mkWorld 1 [] [] [])) /\
  future_correction 200 (JStr "monthly") (midnight 2025 6 1)
                    (midnight 2025 2 28) = Ok (midnight 2025 6 28) /\
  calculate_next_due (env_configured (midnight 2025 6 1) unreachable) 200
                     (Some (midnight 2025 1 31)) (JStr "monthly") None world0
  = (Raise TypeError, mkWorld 1 [] [] []).
Proof.
  split; [|split].
  - intros fuel. reflexivity.
  - vm_compute. reflexivity.
  - vm_compute. reflexivity.
Qed.

End CalculatorClaims.

(** ** Reasoning about effects *)

Section Frames.

Context {A B : Type}.

Lemma silent_ret (a : A) : silent (ret a).
Proof. intros w. split; reflexivity. Qed.

Lemma silent_lift (r : result A) : silent (lift r).
Proof. intros w. split; reflexivity. Qed.

Lemma silent_raise e : silent (@raise A e).
Proof. intros w. split; reflexivity. Qed.

Lemma silent_bind (c : M A) (k : A -> M B) :
  silent c -> (forall a, silent (k a)) -> silent (bind c k).
Proof.
  intros Hc Hk w. unfold bind. specialize (Hc w).
  destruct (c w) as [[a|e|] w1]; cbn in *; try assumption.
  destruct (Hk a w1) as [H1 H2]. destruct Hc as [H3 H4].
  split; congruence.
Qed.

Lemma silent_try (c : M A) (h : exn -> M A) :
  silent c -> (forall e, silent (h e)) -> silent (try_except c h).
Proof.
  intros Hc Hh w. unfold try_except. specialize (Hc w).
  destruct (c w) as [[a|e|] w1]; cbn in *; try assumption.
  destruct (Hh e w1) as [H1 H2]. destruct Hc as [H3 H4].
  split; congruence.
Qed.

(** A handler that always returns turns any computation into one that
    never raises. *)
Lemma try_except_catches (c : M A) (h : exn -> M A) :
  (forall e, catches_all (h e)) -> catches_all (try_except c h).
Proof.
  intros Hh w e. unfold try_except.
  destruct (c w) as [[a|e'|] w1]; cbn; try discriminate.
  apply Hh.
Qed.

Lemma halts_ret (a : A) : halts (ret a).
Proof. intros w. discriminate. Qed.

Lemma halts_raise e : halts (@raise A e).
Proof. intros w. discriminate. Qed.

Lemma halts_lift (r : result A) : r <> OutOfFuel -> halts (lift r).
Proof. intros H w. exact H. Qed.

Lemma halts_bind (c : M A) (k : A -> M B) :
  halts c -> (forall a, halts (k a)) -> halts (bind c k).
Proof.
  intros Hc Hk w. unfold bind. specialize (Hc w).
  destruct (c w) as [[a|e|] w1]; cbn in *; [apply Hk | discriminate | congruence].
Qed.

Lemma halts_try (c : M A) (h : exn -> M A) :
  halts c -> (forall e, halts (h e)) -> halts (try_except c h).
Proof.
  intros Hc Hh w. unfold try_except. specialize (Hc w).
  destruct (c w) as [[a|e|] w1]; cbn in *; [discriminate | apply Hh | congruence].
Qed.

Lemma eventually_halts (c : M A) w : halts c -> eventually (fun _ => c) w.
Proof. intros H. exists 0%nat. intros _ _. apply H. Qed.

Lemma eventually_bind (c : M A) (k : nat -> A -> M B) w :
  halts c ->
  (forall a w1, c w = (Ok a, w1) -> eventually (fun fuel => k fuel a) w1) ->
  eventually (fun fuel => bind c (k fuel)) w.
Proof.
  intros Hc Hk. unfold eventually, bind. specialize (Hc w).
  destruct (c w) as [[a|e|] w1]; cbn in Hc.
  - destruct (Hk a w1 eq_refl) as (fuel0 & H). exists fuel0. exact H.
  - exists 0%nat. intros; discriminate.
  - congruence.
Qed.

Lemma eventually_bind_l (c : nat -> M A) (k : A -> M B) w :
  eventually c w -> (forall a, halts (k a)) ->
  eventually (fun fuel => bind (c fuel) k) w.
Proof.
  intros (fuel0 & Hc) Hk. exists fuel0. intros fuel Hf. unfold bind.
  specialize (Hc fuel Hf).
  destruct (c fuel w) as [[a|e|] w1]; cbn in *;
    [apply Hk | discriminate | congruence].
Qed.

Lemma eventually_try (c : nat -> M A) (h : exn -> M A) w :
  eventually c w -> (forall e, halts (h e)) ->
  eventually (fun fuel => try_except (c fuel) h) w.
Proof.
  intros (fuel0 & Hc) Hh. exists fuel0. intros fuel Hf. unfold try_except.
  specialize (Hc fuel Hf).
  destruct (c fuel w) as [[a|e|] w1]; cbn in *;
    [discriminate | apply Hh | congruence].
Qed.

Lemma returns_ret (P : A -> Prop) a : P a -> returns_only P (ret a).
Proof. intros H w a' w' E. injection E as <- _. exact H. Qed.

Lemma returns_raise (P : A -> Prop) e : returns_only P (raise e).
Proof. intros w a w' E. discriminate. Qed.

Lemma returns_bind (P : B -> Prop) (c : M A) (k : A -> M B) :
  (forall a, returns_only P (k a)) -> returns_only P (bind c k).
Proof.
  intros Hk w b w' E. unfold bind in E.
  destruct (c w) as [[a|e|] w1]; try discriminate.
  exact (Hk a w1 b w' E).
Qed.

Lemma returns_try (P : A -> Prop) (c : M A) (h : exn -> M A) :
  returns_only P c -> (forall e, returns_only P (h e)) ->
  returns_only P (try_except c h).
Proof.
  intros Hc Hh w a w' E. unfold try_except in E.
  destruct (c w) as [[a1|e|] w1] eqn:Ec; try discriminate.
  - injection E as <- <-. exact (Hc w a1 w1 Ec).
  - exact (Hh e w1 a w' E).
Qed.




Lemma recordless_ret (a : A) : recordless (ret a).
Proof. intros w. split; reflexivity. Qed.

Lemma recordless_lift (r : result A) : recordless (lift r).
Proof. intros w. split; reflexivity. Qed.

Lemma recordless_raise e : recordless (@raise A e).
Proof. intros w. split; reflexivity. Qed.

Lemma recordless_bind (c : M A) (k : A -> M B) :
  recordless c -> (forall a, recordless (k a)) -> recordless (bind c k).
Proof.
  intros Hc Hk w. unfold bind. specialize (Hc w).
  destruct (c w) as [[a|e|] w1]; cbn in *; try assumption.
  destruct (Hk a w1) as [H1 H2]. destruct Hc as [H3 H4].
  split; congruence.
Qed.

Lemma recordless_try (c : M A) (h : exn -> M A) :
  recordless c -> (forall e, recordless (h e)) -> recordless (try_except c h).
Proof.
  intros Hc Hh w. unfold try_except. specialize (Hc w).
  destruct (c w) as [[a|e|] w1]; cbn in *; try assumption.
  destruct (Hh e w1) as [H1 H2]. destruct Hc as [H3 H4].
  split; congruence.
Qed.

End Frames.

Lemma silent_log lv ev : silent (log lv ev).
Proof. intros w. split; reflexivity. Qed.

Lemma silent_log_kw env lv ev : silent (log_kw env lv ev).
Proof. intros w. unfold log_kw. destruct (isEnabledFor env lv); split; reflexivity. Qed.

Lemma silent_utcnow env : silent (utcnow env).
Proof. intros w. split; reflexivity. Qed.

Lemma halts_log lv ev : halts (log lv ev).
Proof. intros w. discriminate. Qed.

Lemma halts_log_kw env lv ev : halts (log_kw env lv ev).
Proof. intros w. unfold log_kw. destruct (isEnabledFor env lv); discriminate. Qed.

Lemma halts_utcnow env : halts (utcnow env).
Proof. intros w. discriminate. Qed.

Lemma halts_post env rq : halts (post env rq).
Proof. intros w. discriminate. Qed.

Lemma recordless_log_kw env lv ev : recordless (log_kw env lv ev).
Proof. intros w. unfold log_kw. destruct (isEnabledFor env lv); split; reflexivity. Qed.

Lemma recordless_utcnow env : recordless (utcnow env).
Proof. intros w. split; reflexivity. Qed.

Lemma recordless_post env rq : recordless (post env rq).
Proof. intros w. split; reflexivity. Qed.

Lemma get_returns v k d : get v k d <> OutOfFuel.
Proof. destruct v; discriminate. Qed.

Lemma getitem_returns v k : getitem v k <> OutOfFuel.
Proof.
  destruct v as [| | | | |d]; cbn; try discriminate.
  destruct (lookup k d); discriminate.
Qed.

Lemma request_json_returns r : request_json r <> OutOfFuel.
Proof. unfold request_json. destruct (body_json r); discriminate. Qed.

Lemma fromisoformat_returns env s : fromisoformat env s <> OutOfFuel.
Proof. unfold fromisoformat. destruct (isoparse env s); discriminate. Qed.

Lemma iter_returns v : iter v <> OutOfFuel.
Proof. destruct v; cbn; discriminate. Qed.

Create HintDb frame.
#[local] Hint Resolve silent_ret silent_lift silent_raise silent_log
  silent_log_kw silent_utcnow : frame.

Ltac frame :=
  repeat first
    [ solve [auto with frame]
    | apply silent_bind; [|intros ?]
    | apply silent_try; [|intros ?]
    | match goal with
      | |- silent (if ?b then _ else _) => destruct b
      | |- silent (match ?x with _ => _ end) => destruct x
      | |- silent (let _ := _ in _) => cbv zeta
      end ].

Ltac keeps_records :=
  repeat first
    [ apply recordless_ret | apply recordless_lift | apply recordless_raise
    | apply recordless_log_kw | apply recordless_utcnow | apply recordless_post
    | apply recordless_bind; [|intros ?]
    | apply recordless_try; [|intros ?]
    | match goal with
      | |- recordless (if ?b then _ else _) => destruct b
      | |- recordless (match ?x with _ => _ end) => destruct x
      | |- recordless (let _ := _ in _) => cbv zeta
      end ].

Lemma silent_calculate_next_due env fuel cd r ca :
  silent (calculate_next_due env fuel cd r ca).
Proof. unfold calculate_next_due, first_candidate, base_date. frame. Qed.

#[local] Hint Resolve silent_calculate_next_due : frame.

Lemma recordless_calculate_next_due env fuel cd r ca :
  recordless (calculate_next_due env fuel cd r ca).
Proof. unfold calculate_next_due, first_candidate, base_date. keeps_records. Qed.

(** ** The levels of the logger *)

Section Levels.

Lemma isEnabledFor_mono env lv lv' :
  levelno lv <= levelno lv' ->
  isEnabledFor env lv = true -> isEnabledFor env lv' = true.
Proof. unfold isEnabledFor. intros H1 H2. apply Z.leb_le in H2. apply Z.leb_le. lia. Qed.

Lemma isEnabledFor_off env lv lv' :
  levelno lv <= levelno lv' ->
  isEnabledFor env lv' = false -> isEnabledFor env lv = false.
Proof.
  intros H1 H2. destruct (isEnabledFor env lv) eqn:E; [|reflexivity].
  rewrite (isEnabledFor_mono env lv lv' H1 E) in H2. discriminate.
Qed.

Lemma log_kw_on env lv ev w :
  isEnabledFor env lv = true -> log_kw env lv ev w = (Raise TypeError, w).
Proof. intros H. unfold log_kw. rewrite H. reflexivity. Qed.

Lemma log_kw_off env lv ev w :
  isEnabledFor env lv = false -> log_kw env lv ev w = (Ok tt, w).
Proof. intros H. unfold log_kw. rewrite H. reflexivity. Qed.

End Levels.

(** ** The backend client *)

Section BackendClientFacts.

Lemma creations_app l1 l2 :
  creations (l1 ++ l2) = (creations l1 + creations l2)%nat.
Proof.
  induction l1 as [|rq l1 IH]; [reflexivity|].
  destruct rq; cbn; rewrite IH; reflexivity.
Qed.

Lemma creations_tag_requests token tid l :
  creations (tag_requests token tid l) = 0%nat.
Proof. induction l as [|t l IH]; [reflexivity | exact IH]. Qed.

(** The tag loop goes through all its tags when every request is answered,
    and also when requests fail while [WARNING] is not enabled. *)
Lemma add_each_runs env token tid l :
  answers_tags env \/ isEnabledFor env WARNING = false ->
  forall w,
    BackendClient.add_each env token tid l w =
    (Ok tt, mkWorld (ticks w) (logs w)
                    (sent w ++ tag_requests token tid l) (printed w)).
Proof.
  intros H. induction l as [|tag rest IH]; intros w.
  - cbn. rewrite app_nil_r. destruct w; reflexivity.
  - cbn [BackendClient.add_each tag_requests map].
    unfold bind at 1. unfold try_except, bind, post.
    destruct (network env (Datatypes.length (sent w)) (PostAddTag token tid tag))
      as [e|st b] eqn:Net; cbn [raise ret].
    + destruct H as [H|H].
      * destruct (H (Datatypes.length (sent w)) token tid tag) as (st & b & E).
        congruence.
      * rewrite (log_kw_off env WARNING _ _ H). rewrite IH.
        cbn [ticks logs sent printed]. rewrite <- app_assoc. reflexivity.
    + rewrite IH. cbn [ticks logs sent printed]. rewrite <- app_assoc.
      reflexivity.
Qed.

(** The tag loop is left at its first tag when the request fails while
    [WARNING] is enabled: the logger call of the [except] clause raises. *)
Lemma add_each_stops env token tid tag rest w :
  drops_tags env -> isEnabledFor env WARNING = true ->
  BackendClient.add_each env token tid (tag :: rest) w =
  (Raise TypeError,
   mkWorld (ticks w) (logs w) (sent w ++ [PostAddTag token tid tag]) (printed w)).
Proof.
  intros Hd Hw. cbn [BackendClient.add_each].
  unfold bind at 1. unfold try_except, bind, post.
  destruct (Hd (Datatypes.length (sent w)) token tid tag) as (e & ->).
  cbn [raise]. rewrite (log_kw_on env WARNING _ _ Hw). reflexivity.
Qed.

(** The tag loop sends tag requests only. *)
Lemma add_each_sends_tags env token tid l : forall w,
  exists rest,
    sent (snd (BackendClient.add_each env token tid l w)) = (sent w ++ rest)%list /\
    creations rest = 0%nat.
Proof.
  induction l as [|tag l IH]; intros w.
  - exists []. cbn. rewrite app_nil_r. split; reflexivity.
  - cbn [BackendClient.add_each].
    unfold bind at 1. unfold try_except, bind, post.
    destruct (network env _ _) as [e|st b]; cbn [raise ret].
    + unfold log_kw. destruct (isEnabledFor env WARNING).
      * exists [PostAddTag token tid tag]. cbn. split; reflexivity.
      * match goal with |- context [BackendClient.add_each _ _ _ _ ?w1] =>
          destruct (IH w1) as (rest & H1 & H2) end.
        exists (PostAddTag token tid tag :: rest). rewrite H1. cbn.
        rewrite <- app_assoc. split; [reflexivity | exact H2].
    + match goal with |- context [BackendClient.add_each _ _ _ _ ?w1] =>
        destruct (IH w1) as (rest & H1 & H2) end.
      exists (PostAddTag token tid tag :: rest). rewrite H1. cbn.
      rewrite <- app_assoc. split; [reflexivity | exact H2].
Qed.


(** The client on a creation that succeeds, with a list of tags, when
    [INFO] is not enabled and the tag loop goes through. *)
Lemma create_task_created env title user_id token description priority
      due recurrence parent w status body tid l :
  network env (List.length (sent w))
          (creation_request token title description priority due recurrence parent)
  = Response status (Some (JObj body)) ->
  is_success status = true ->
  lookup "id" body = Some tid ->
  isEnabledFor env INFO = false ->
  answers_tags env \/ isEnabledFor env WARNING = false ->
  BackendClient.create_task env title user_id token description priority
                            (JArr l) due recurrence parent w
  = (Ok (JObj body),
     mkWorld (ticks w) (logs w)
             (sent w ++ creation_request token title description priority due
                                         recurrence parent
                     :: tag_requests token tid l)
             (printed w)).
Proof.
  intros Hnet Hs Hid Hinfo Htags.
  unfold BackendClient.create_task.
  fold (sent_parent parent).
  fold (creation_request token title description priority due recurrence parent).
  unfold try_except, bind at 1. unfold post. rewrite Hnet. rewrite Hs.
  unfold bind at 1. unfold lift at 1.
  unfold bind at 1. unfold lift at 1. unfold get. 
  unfold bind at 1. rewrite (log_kw_off env INFO _ _ Hinfo).
  cbn [truthy sent logs ticks printed].
  destruct l as [|t l'].
  - reflexivity.
  - unfold bind at 1. unfold bind at 1. unfold lift at 1. unfold getitem.
    rewrite Hid.
    unfold BackendClient._add_tags, bind at 1. unfold lift, iter.
    rewrite (add_each_runs env token tid (t :: l') Htags).
    cbn [ticks logs sent printed ret]. rewrite <- app_assoc. reflexivity.
Qed.

(** The client on a creation that succeeds while the first tag request
    fails and [WARNING] is enabled: the task has been created, and the call
    ends with the [TypeError] of the logger. *)
Lemma create_task_tag_failure env title user_id token description priority
      due recurrence parent w status body tid tag l :
  let rq := creation_request token title description priority due
                             recurrence parent in
  network env (List.length (sent w)) rq = Response status (Some (JObj body)) ->
  is_success status = true ->
  lookup "id" body = Some tid ->
  isEnabledFor env INFO = false -> isEnabledFor env WARNING = true ->
  drops_tags env ->
  BackendClient.create_task env title user_id token description priority
                            (JArr (tag :: l)) due recurrence parent w
  = (Raise TypeError,
     mkWorld (ticks w) (logs w)
             (sent w ++ [rq; PostAddTag token tid tag]) (printed w)).
Proof.
  intros rq Hnet Hs Hid Hinfo Hwarn Hd.
  assert (Herr : isEnabledFor env ERROR = true)
    by (apply (isEnabledFor_mono env WARNING ERROR); [cbn; lia | exact Hwarn]).
  unfold BackendClient.create_task.
  fold (sent_parent parent).
  fold (creation_request token title description priority due recurrence parent).
  fold rq.
  unfold try_except, bind at 1. unfold post. rewrite Hnet. rewrite Hs.
  unfold bind at 1. unfold lift at 1.
  unfold bind at 1. unfold lift at 1. unfold get.
  unfold bind at 1. rewrite (log_kw_off env INFO _ _ Hinfo).
  cbn [truthy sent logs ticks printed].
  unfold bind at 1. unfold bind at 1. unfold lift at 1. unfold getitem.
  rewrite Hid.
  unfold BackendClient._add_tags, bind at 1. unfold lift, iter.
  rewrite (add_each_stops env token tid tag l _ Hd Hwarn).
  cbn [ticks logs sent printed].
  unfold bind, log_kw. rewrite Herr. rewrite <- app_assoc. reflexivity.
Qed.

(** Whatever the network does, the client sends the creation request
    first, and only tag requests after it. *)
Lemma create_task_sends_first env title user_id token description priority
      tags due recurrence parent w :
  exists rest,
    sent (snd (BackendClient.create_task env title user_id token description
                                         priority tags due recurrence parent w))
    = (sent w ++ creation_request token title description priority due
                                  recurrence parent :: rest)%list /\
    creations rest = 0%nat.
Proof.
  unfold BackendClient.create_task.
  fold (sent_parent parent).
  fold (creation_request token title description priority due recurrence parent).
  set (rq := creation_request _ _ _ _ _ _ _).
  match goal with |- context [try_except _ ?h] => set (handler := h) end.
  assert (Hexc' : forall e w1 tl,
            sent w1 = (sent w ++ rq :: tl)%list -> creations tl = 0%nat ->
            exists rest,
              sent (snd (handler e w1)) = (sent w ++ rq :: rest)%list /\
              creations rest = 0%nat).
  { intros e w1 tl H1 H2. exists tl. subst handler.
    destruct e; unfold bind, log_kw, raise;
      destruct (isEnabledFor env ERROR); cbn; rewrite H1; split;
      solve [reflexivity | exact H2]. }
  unfold try_except, bind at 1. unfold post.
  destruct (network env _ rq) as [e|st bd]; cbn [raise].
  { apply (Hexc' e _ []); reflexivity. }
  destruct (is_success st); cbn [raise].
  2:{ apply (Hexc' _ _ []); reflexivity. }
  set (w1 := mkWorld (ticks w) (logs w) (sent w ++ [rq]) (printed w)).
  assert (Hw1 : sent w1 = (sent w ++ rq :: [])%list) by reflexivity.
  unfold bind at 1. unfold lift at 1.
  destruct bd as [b|]; [|apply (Hexc' _ _ [] Hw1 eq_refl)].
  unfold bind at 1. unfold lift at 1.
  destruct (get b "id" JNull) as [i|e|]; [|apply (Hexc' _ _ [] Hw1 eq_refl)|].
  2:{ exists []. split; reflexivity. }
  unfold bind at 1. unfold log_kw at 1.
  destruct (isEnabledFor env INFO); [apply (Hexc' _ _ [] Hw1 eq_refl)|].
  fold w1.
  destruct (truthy tags).
  2:{ cbn. exists []. split; reflexivity. }
  unfold bind at 1. unfold bind at 1. unfold lift at 1.
  destruct (getitem b "id") as [tid|e|]; [|apply (Hexc' _ _ [] Hw1 eq_refl)|].
  2:{ exists []. split; reflexivity. }
  unfold BackendClient._add_tags. unfold bind at 1. unfold lift at 1.
  destruct (iter tags) as [items|e|]; [|apply (Hexc' _ _ [] Hw1 eq_refl)|].
  2:{ exists []. split; reflexivity. }
  destruct (add_each_sends_tags env token tid items w1) as (tl & H1 & H2).
  destruct (BackendClient.add_each env token tid items w1) as [[u|e|] w2];
    cbn in H1.
  - cbn. exists tl. rewrite H1. cbn. rewrite <- app_assoc. split; [reflexivity|exact H2].
  - apply (Hexc' e w2 tl); [|exact H2]. rewrite H1. cbn.
    rewrite <- app_assoc. reflexivity.
  - exists tl. cbn. rewrite H1. cbn. rewrite <- app_assoc. split; [reflexivity|exact H2].
Qed.

End BackendClientFacts.

(** ** The task-event handler *)

Section EventsFacts.

(** The outer [except] clause and the route, on any [try] block. *)
Lemma serve_try env ev (c : M json) w :
  serve_dict HTTP_200_OK
    (try_except c
       (fun e => log_kw env ERROR ev ;;;
                 ret (Events.reply_dict "FAILED" "error" (describe e)))) w
  = answer_of env (c w).
Proof.
  unfold serve_dict, try_except, bind, answer_of, log_kw, ret, internal_error.
  destruct (c w) as [[d|e|] w1]; try reflexivity.
  destruct (isEnabledFor env ERROR); reflexivity.
Qed.

(** Every answer of the route is a dict sent with a 200, or the 500 that
    stands for an exception. *)
Lemma handle_task_event_status env fuel request w r w' :
  Events.handle_task_event env fuel request w = (Ok r, w') ->
  status_code r = HTTP_200_OK \/ r = internal_error.
Proof.
  unfold Events.handle_task_event, Events.handle_task_event_body.
  rewrite serve_try. unfold answer_of.
  match goal with |- context [match ?x with _ => _ end] =>
    destruct x as [[d|e|] w1] end.
  - intros H. injection H as <- _. left. reflexivity.
  - destruct (isEnabledFor env ERROR); intros H; injection H as <- _;
      [right | left]; reflexivity.
  - discriminate.
Qed.

(** With [INFO] enabled the handler never gets past its first logger call:
    whatever the request, the route answers 500 and nothing else has
    happened. *)
Lemma handle_task_event_at_info env fuel request w :
  isEnabledFor env INFO = true ->
  Events.handle_task_event env fuel request w = (Ok internal_error, w).
Proof.
  intros Hinfo.
  assert (Herr : isEnabledFor env ERROR = true)
    by (apply (isEnabledFor_mono env INFO ERROR); [cbn; lia | exact Hinfo]).
  unfold Events.handle_task_event, Events.handle_task_event_body.
  rewrite serve_try.
  unfold bind, lift, request_json.
  destruct (body_json request) as [body|];
    [|unfold answer_of; rewrite Herr; reflexivity].
  repeat match goal with
  | |- context [match get ?v ?k ?d with _ => _ end] =>
      let G := fresh "G" in
      destruct (get v k d) as [?| |] eqn:G;
        [ | unfold answer_of; rewrite Herr; reflexivity
          | exfalso; exact (get_returns _ _ _ G) ]
  end.
  rewrite (log_kw_on env INFO _ _ Hinfo).
  unfold answer_of; rewrite Herr; reflexivity.
Qed.

(** Without an [Authorization] header the handler makes no outbound
    request, whatever the body. *)
Lemma handle_task_event_body_silent env fuel body :
  silent (Events.handle_task_event_body env fuel (mkRequest body None)).
Proof.
  unfold Events.handle_task_event_body, Events.create_next_occurrence,
    Events.token_of.
  cbn [authorization String.eqb negb].
  frame.
Qed.

Lemma handle_task_event_silent env fuel body :
  silent (Events.handle_task_event env fuel (mkRequest body None)).
Proof.
  unfold Events.handle_task_event, serve_dict.
  apply silent_try; [|intros e; apply silent_ret].
  apply silent_bind; [apply handle_task_event_body_silent|].
  intros d. apply silent_ret.
Qed.

(** The handler unwraps a cloud-event envelope: a body with a [data] entry
    is handled as the value of that entry is, when that value is itself a
    payload (an object without a [data] entry of its own). *)
Lemma handle_task_event_unwraps env fuel auth wrapper payload w :
  get (JObj wrapper) "data" (JObj wrapper) = Ok payload ->
  get payload "data" payload = Ok payload ->
  Events.handle_task_event env fuel (mkRequest (Some (JObj wrapper)) auth) w =
  Events.handle_task_event env fuel (mkRequest (Some payload) auth) w.
Proof.
  intros Hw Hp.
  unfold Events.handle_task_event, serve_dict, Events.handle_task_event_body,
    try_except, bind, lift, request_json.
  cbn [body_json authorization].
  rewrite Hw, Hp. reflexivity.
Qed.

(** An event that is not a completion, or whose snapshot has the pattern
    ["none"], is answered [IGNORED] when [INFO] is not enabled; the clock is
    not read and nothing is sent. *)
Lemma handle_task_event_ignored_quietly env fuel request fields snapshot w :
  carries request fields snapshot ->
  eq_str (event_kind fields) "task.completed" = false \/
  eq_str (pattern_of snapshot) "none" = true ->
  isEnabledFor env INFO = false ->
  exists reason,
    Events.handle_task_event env fuel request w =
      (Ok (mkResponse HTTP_200_OK
             (Events.reply_dict "IGNORED" "reason" reason)), w).
Proof.
  intros (body & H1 & H2 & H3) H Hinfo.
  assert (Hdbg : isEnabledFor env DEBUG = false)
    by (apply (isEnabledFor_off env DEBUG INFO); [cbn; lia | exact Hinfo]).
  unfold Events.handle_task_event, Events.handle_task_event_body.
  rewrite serve_try.
  unfold bind, lift, request_json.
  rewrite H1, H2, H3.
  cbn [get].
  rewrite (log_kw_off env INFO _ _ Hinfo).
  fold (event_kind fields). fold (pattern_of snapshot).
  destruct (eq_str (event_kind fields) "task.completed") eqn:E.
  - destruct H as [H|H]; [discriminate|]. rewrite H. cbn [negb].
    rewrite (log_kw_off env DEBUG _ _ Hdbg). eexists. reflexivity.
  - cbn [negb]. rewrite (log_kw_off env DEBUG _ _ Hdbg).
    eexists. reflexivity.
Qed.


(** The creation step without a token: the warning, which raises when
    [WARNING] is enabled, and then so does the logger call of the [except]
    clause. *)
Lemma creation_step_skipped env request fields snapshot recurrence nd w :
  Events.token_of request = "" ->
  creation_step env request fields snapshot recurrence nd w =
    (if isEnabledFor env WARNING then Raise TypeError
     else Ok (Events.reply_dict "SKIPPED" "reason"
                                "no authentication token available"), w).
Proof.
  intros Htok. unfold creation_step, Events.create_next_occurrence.
  cbv zeta. rewrite Htok. cbn [String.eqb].
  unfold try_except, bind, log_kw, ret.
  destruct (isEnabledFor env WARNING) eqn:Hw; [|reflexivity].
  rewrite (isEnabledFor_mono env WARNING ERROR); [reflexivity | cbn; lia | exact Hw].
Qed.


(** The creation step when the owning service creates the task and the
    tag loop goes through, [INFO] not enabled. *)
Lemma creation_step_success env request fields snapshot recurrence nd w
      status body new_id l :
  Events.token_of request <> "" ->
  creates env status body -> is_success status = true ->
  lookup "id" body = Some new_id ->
  entry_or "tags" (JArr []) snapshot = JArr l ->
  isEnabledFor env INFO = false ->
  answers_tags env \/ isEnabledFor env WARNING = false ->
  creation_step env request fields snapshot recurrence nd w =
    (Ok (JObj [("status", JStr "SUCCESS"); ("new_task_id", new_id)]),
     mkWorld (ticks w) (logs w)
             (sent w ++ creation_of fields snapshot (Events.token_of request)
                                    recurrence nd
                     :: tag_requests (Events.token_of request) new_id l)
             (printed w)).
Proof.
  intros Htok Hnet Hs Hid Htags Hinfo Hans.
  unfold creation_step, Events.create_next_occurrence. cbv zeta.
  apply String.eqb_neq in Htok. rewrite Htok.
  unfold try_except, bind at 1. unfold lift at 1. cbn [get].
  unfold bind at 1. unfold lift at 1.
  unfold bind at 1. unfold lift at 1.
  unfold bind at 1. unfold lift at 1.
  unfold bind at 1.
  fold (entry "title" snapshot) (entry "description" snapshot)
       (entry_or "priority" (JStr "medium") snapshot)
       (entry_or "tags" (JArr []) snapshot).
  rewrite Htags.
  rewrite (create_task_created env (entry "title" snapshot) (entry "user_id" fields)
             (Events.token_of request) (entry "description" snapshot)
             (entry_or "priority" (JStr "medium") snapshot)
             (Some nd) recurrence (Some (entry "task_id" fields)) w status body
             new_id l (Hnet _ _ _ _ _ _ _ _) Hs Hid Hinfo Hans).
  unfold bind, lift, get. rewrite Hid.
  rewrite (log_kw_off env INFO _ _ Hinfo). reflexivity.
Qed.

(** The creation step when the owning service creates the task and the
    first tag request fails, [WARNING] enabled and [INFO] not: the task
    exists, and the step ends with the [TypeError] of the logger. *)
Lemma creation_step_tag_failure env request fields snapshot recurrence nd w
      status body new_id tag l :
  Events.token_of request <> "" ->
  creates env status body -> is_success status = true ->
  lookup "id" body = Some new_id ->
  entry_or "tags" (JArr []) snapshot = JArr (tag :: l) ->
  isEnabledFor env INFO = false -> isEnabledFor env WARNING = true ->
  drops_tags env ->
  creation_step env request fields snapshot recurrence nd w =
    (Raise TypeError,
     mkWorld (ticks w) (logs w)
             (sent w ++ [creation_of fields snapshot (Events.token_of request)
                                     recurrence nd;
                         PostAddTag (Events.token_of request) new_id tag])
             (printed w)).
Proof.
  intros Htok Hnet Hs Hid Htags Hinfo Hwarn Hd.
  unfold creation_step, Events.create_next_occurrence. cbv zeta.
  apply String.eqb_neq in Htok. rewrite Htok.
  unfold try_except, bind at 1. unfold lift at 1. cbn [get].
  unfold bind at 1. unfold lift at 1.
  unfold bind at 1. unfold lift at 1.
  unfold bind at 1. unfold lift at 1.
  unfold bind at 1.
  fold (entry "title" snapshot) (entry "description" snapshot)
       (entry_or "priority" (JStr "medium") snapshot)
       (entry_or "tags" (JArr []) snapshot).
  rewrite Htags.
  rewrite (create_task_tag_failure env (entry "title" snapshot)
             (entry "user_id" fields)
             (Events.token_of request) (entry "description" snapshot)
             (entry_or "priority" (JStr "medium") snapshot)
             (Some nd) recurrence (Some (entry "task_id" fields)) w status body
             new_id tag l (Hnet _ _ _ _ _ _ _ _) Hs Hid Hinfo Hwarn Hd).
  unfold bind, log_kw.
  rewrite (isEnabledFor_mono env WARNING ERROR); [reflexivity | cbn; lia | exact Hwarn].
Qed.

End EventsFacts.

Section EventsClaims.

(** C6, at events the handler is to ignore, once [configure_logging] has
    set the level of the service's default settings, [INFO]: a completion
    event of a task that does not recur, and an update event of a weekly
    task.  The logger call of lines 60-65 comes before the tests of the
    kind and of the pattern and its keyword arguments make it raise; the
    logger call of the outer [except] clause raises in turn; the route is
    left by the exception and answers 500.  The outcome [IGNORED] is not
    reached and the event is not acknowledged; nothing is sent. *)
Theorem handle_task_event_ignored_fails_when_configured :
  Events.handle_task_event
    (env_configured (midnight 2025 1 8) unreachable) 3
    (mkRequest (Some (task_event "task.completed" "none" JNull))
               (Some "Bearer token"))
    world0
  = (Ok (mkResponse 500 (JStr "Internal Server Error")), world0) /\
  Events.handle_task_event
    (env_configured (midnight 2025 1 8) unreachable) 3
    (mkRequest (Some (task_event "task.updated" "weekly" JNull))
               (Some "Bearer token"))
    world0
  = (Ok (mkResponse 500 (JStr "Internal Server Error")), world0) /\
  acknowledged (mkResponse 500 (JStr "Internal Server Error")) = false.
Proof. repeat split. Qed.

(** The same events with logging as Python starts it, [INFO] not enabled:
    both are answered [IGNORED]. *)
Example handle_task_event_ignored_by_default :
  Events.handle_task_event
    (env_at (midnight 2025 1 8) unreachable) 3
    (mkRequest (Some (task_event "task.completed" "none" JNull))
               (Some "Bearer token"))
    world0
  = (Ok (mkResponse 200 (Events.reply_dict "IGNORED" "reason"
                                           "task is not recurring")), world0) /\
  Events.handle_task_event
    (env_at (midnight 2025 1 8) unreachable) 3
    (mkRequest (Some (task_event "task.updated" "weekly" JNull))
               (Some "Bearer token"))
    world0
  = (Ok (mkResponse 200 (Events.reply_dict "IGNORED" "reason"
                                           "not a completion event")), world0).
Proof. split; reflexivity. Qed.

(** C7, at the completion event of a weekly task that arrives without an
    [Authorization] header, with logging as Python starts it: the handler
    computes the next due date and finds no token; the logger call of lines
    110-113 raises on its keyword argument, the logger calls of the inner
    and of the outer [except] clause raise in turn, and the route answers
    500 instead of the dict [SKIPPED] with a 200: the event is not
    acknowledged.  No request is sent.  With [INFO] enabled by
    [configure_logging] the answer is a 500 as well, from the first logger
    call on. *)
Theorem handle_task_event_no_credential_fails :
  Events.handle_task_event
    (env_at (midnight 2025 1 8) unreachable) 3
    (mkRequest (Some (task_event "task.completed" "weekly"
                                 (JStr "2025-01-01T00:00:00"))) None)
    world0
  = (Ok (mkResponse 500 (JStr "Internal Server Error")), mkWorld 2 [] [] []) /\
  Events.handle_task_event
    (env_configured (midnight 2025 1 8) unreachable) 3
    (mkRequest (Some (task_event "task.completed" "weekly"
                                 (JStr "2025-01-01T00:00:00"))) None)
    world0
  = (Ok (mkResponse 500 (JStr "Internal Server Error")), world0) /\
  acknowledged (mkResponse 500 (JStr "Internal Server Error")) = false.
Proof. split; [vm_compute; reflexivity | split; reflexivity]. Qed.

(** The same delivery with the warnings of the service turned off: the
    answer is the dict [SKIPPED], sent with a 200. *)
Example handle_task_event_no_credential_silenced :
  Events.handle_task_event
    (env_silenced (midnight 2025 1 8) unreachable) 3
    (mkRequest (Some (task_event "task.completed" "weekly"
                                 (JStr "2025-01-01T00:00:00"))) None)
    world0
  = (Ok (mkResponse 200 (Events.reply_dict "SKIPPED" "reason"
                           "no authentication token available")),
     mkWorld 2 [] [] []).
Proof. vm_compute. reflexivity. Qed.






(** The delivery of the witness, run: the one creation request, for
    2025-01-15, and the 500; the same when the owning service cannot be
    reached. *)
Example handle_task_event_create_failed_run :
  Events.handle_task_event
    (env_at (midnight 2025 1 8) (Response 500 None)) 3
    (mkRequest (Some (task_event "task.completed" "weekly"
                                 (JStr "2025-01-01T00:00:00")))
               (Some "Bearer token"))
    world0 =
    (Ok (mkResponse 500 (JStr "Internal Server Error")),
     mkWorld 2 []
       [PostCreateTask "token" (JStr "Water the plants") JNull (JStr "medium")
                       (JStr "weekly") (Some (midnight 2025 1 15))
                       (Some (JStr "task-1"))]
       []) /\
  fst (Events.handle_task_event
         (env_at (midnight 2025 1 8) unreachable) 3
         (mkRequest (Some (task_event "task.completed" "weekly"
                                      (JStr "2025-01-01T00:00:00")))
                    (Some "Bearer token"))
         world0) =
  Ok (mkResponse 500 (JStr "Internal Server Error")).
Proof. split; vm_compute; reflexivity. Qed.

(** With the records of the service turned off altogether the [except]
    clause returns its dict, which the route sends with a 200, whatever its
    comment on line 148 says of a 503. *)
Example handle_task_event_create_failed_silenced :
  fst (Events.handle_task_event
         (env_silenced (midnight 2025 1 8) (Response 500 None)) 3
         (mkRequest (Some (task_event "task.completed" "weekly"
                                      (JStr "2025-01-01T00:00:00")))
                    (Some "Bearer token"))
         world0) =
  Ok (mkResponse 200 (Events.reply_dict "RETRY" "error" "HTTPStatusError")).
Proof. vm_compute. reflexivity. Qed.

(** The event of the specification's example as it comes off the bus, its
    due date spelled with a [Z]: the handler reads an aware value, the
    calculator raises, the logger call of the outer [except] clause raises
    in turn, and the route answers 500; nothing is created. *)
Example handle_task_event_aware_due_date :
  Events.handle_task_event
    (env_at (midnight 2025 1 8) (Response 201 (Some (JObj [("id", JStr "task-2")])))) 3
    (mkRequest (Some (task_event "task.completed" "weekly"
                                 (JStr "2025-01-01T00:00:00Z")))
               (Some "Bearer token"))
    world0 =
    (Ok (mkResponse 500 (JStr "Internal Server Error")), mkWorld 2 [] [] []).
Proof. vm_compute. reflexivity. Qed.

End EventsClaims.

(** ** The reminder endpoint *)

Section RemindersClaims.

(** C5 as stated fails on the payload without [user_id]: the endpoint does
    not answer with an acknowledgement. *)
Lemma reminder_without_user_not_acknowledged :
  ~ (exists r w',
       Reminders.handle_reminder_event
         (env_at (midnight 2025 1 8) unreachable)
         (mkRequest (Some reminder_without_user) None) world0 = (Ok r, w') /\
       content r = invalid_reminder /\ printed w' = [] /\
       acknowledged r = true).
Proof.
  intros (r & w' & H & _ & _ & Hack).
  vm_compute in H. injection H as <- _. discriminate Hack.
Qed.

(** C5, amended: for every reminder payload that lacks one of [task_id],
    [title], [user_id], the handler logs the missing field and returns the
    validation error, nothing is dispatched and no request is made, and the
    endpoint answers with a 500, which is not an acknowledgement. *)
Theorem reminder_missing_field_rejected env fields auth w :
  lookup "task_id" fields = None \/ lookup "title" fields = None \/
  lookup "user_id" fields = None ->
  exists w',
    Reminders.handle_reminder_event env (mkRequest (Some (JObj fields)) auth) w =
      (Ok (mkResponse HTTP_500_INTERNAL_SERVER_ERROR invalid_reminder), w') /\
    printed w' = printed w /\ sent w' = sent w /\
    logged WARNING "Missing required field" w' /\
    acknowledged (mkResponse HTTP_500_INTERNAL_SERVER_ERROR invalid_reminder)
    = false.
Proof.
  intros H.
  unfold Reminders.handle_reminder_event, serve_response,
    ReminderHandler.handle_reminder_event, ReminderHandler._validate_event_data,
    ReminderHandler.required_fields, ReminderHandler.validate_fields,
    try_except, bind, lift, request_json, contains, getitem, log, ret.
  cbn [body_json ticks logs sent printed].
  destruct (lookup "task_id" fields) as [v1|] eqn:E1;
    [destruct (truthy v1)|]; cbn.
  2,3: eexists; repeat split; unfold logged; cbn; rewrite ?in_app_iff; cbn; auto.
  destruct (lookup "title" fields) as [v2|] eqn:E2;
    [destruct (truthy v2)|]; cbn.
  2,3: eexists; repeat split; unfold logged; cbn; rewrite ?in_app_iff; cbn; auto.
  destruct (lookup "user_id" fields) as [v3|] eqn:E3;
    [destruct (truthy v3)|]; cbn.
  2,3: eexists; repeat split; unfold logged; cbn; rewrite ?in_app_iff; cbn; auto.
  exfalso. destruct H as [H | [H | H]]; discriminate.
Qed.

Lemma reminder_missing_field_rejected_witness :
  exists w',
    Reminders.handle_reminder_event
      (env_at (midnight 2025 1 8) unreachable)
      (mkRequest (Some (JObj [("task_id", JStr "task-1");
                              ("title", JStr "Water the plants");
                              ("remind_at", JStr "2025-01-01T00:00:00")]))
                 None) world0 =
      (Ok (mkResponse HTTP_500_INTERNAL_SERVER_ERROR invalid_reminder), w') /\
    printed w' = printed world0 /\ sent w' = sent world0 /\
    logged WARNING "Missing required field" w' /\
    acknowledged (mkResponse HTTP_500_INTERNAL_SERVER_ERROR invalid_reminder)
    = false.
Proof.
  apply (reminder_missing_field_rejected
           (env_at (midnight 2025 1 8) unreachable)
           [("task_id", JStr "task-1");
            ("title", JStr "Water the plants");
            ("remind_at", JStr "2025-01-01T00:00:00")]
           None world0).
  right. right. reflexivity.
Defined.

(** C9, at a reminder wrapped in a cloud-event envelope: the endpoint
    hands the envelope itself to the handler, which looks for [task_id] at
    the top level, logs it as missing, and the event is answered with a 500
    and nothing is dispatched; the same payload sent bare is dispatched and
    answered with a 200. *)
Theorem reminder_in_cloud_event_is_rejected :
  Reminders.handle_reminder_event
    (env_at (midnight 2025 1 8) unreachable)
    (mkRequest (Some (cloud_event reminder)) None) world0 =
    (Ok (mkResponse 500 invalid_reminder),
     mkWorld 0
       [mkLog INFO "Received reminder event";
        mkLog WARNING "Missing required field"]
       [] []) /\
  Reminders.handle_reminder_event
    (env_at (midnight 2025 1 8) unreachable)
    (mkRequest (Some reminder) None) world0 =
    (Ok (mkResponse 200
           (JObj [("status", JStr "success");
                  ("message", JStr "Reminder notification sent for task");
                  ("task_id", JStr "task-1"); ("user_id", JStr "user-1")])),
     mkWorld 0
       [mkLog INFO "Received reminder event";
        mkLog INFO "Processing reminder for task";
        mkLog INFO "Sending notification to user";
        mkLog INFO "Successfully sent reminder notification"]
       []
       [mkNotification (JStr "Water the plants") NoDue
                       (Some (midnight 2025 1 1))]).
Proof. split; vm_compute; reflexivity. Qed.

(** The task-event handler does unwrap the same envelope. *)
Example task_event_in_cloud_event_is_unwrapped :
  Events.handle_task_event
    (env_at (midnight 2025 1 8) unreachable) 3
    (mkRequest (Some (cloud_event (task_event "task.completed" "none" JNull)))
               None) world0 =
  Events.handle_task_event
    (env_at (midnight 2025 1 8) unreachable) 3
    (mkRequest (Some (task_event "task.completed" "none" JNull)) None) world0.
Proof. apply handle_task_event_unwraps; reflexivity. Qed.

End RemindersClaims.

(** ** The publisher *)

Section PublisherClaims.
Import EventPublisher.

(** C8: [publish_task_event] always returns a boolean and never raises.
    Disabled, it returns [True] and sends nothing.  Enabled, it sends
    exactly one request, to the topic [task-events]; it returns [True]
    exactly when that request is answered with a 2xx status, and when the
    request fails or is answered otherwise it logs an error and returns
    [False]. *)
Theorem publish_task_event_never_raises env self event_type task user_id w :
  exists b w',
    publish_task_event env self event_type task user_id w = (Ok b, w') /\
    (enabled self = false -> b = true /\ sent w' = sent w) /\
    (enabled self = true ->
     exists event,
       let rq := PostPublish (dapr_port self) (pubsub_name self)
                             "task-events" event in
       sent w' = (sent w ++ [rq])%list /\
       Schemas.task_data event = task_event_data task /\
       (b = true <->
        exists status body,
          network env (List.length (sent w)) rq = Response status body /\
          is_success status = true) /\
       (b = false ->
        logged ERROR "Failed to publish event" w' \/
        logged ERROR "Unexpected error publishing event" w')).
Proof.
  unfold publish_task_event.
  destruct (enabled self) eqn:En; cbn [negb].
  - unfold try_except, bind, now_utc, post, log, ret, raise.
    cbn [ticks logs sent printed].
    set (rq := PostPublish _ _ _ _).
    destruct (network env (List.length (sent w)) rq) as [e|status body] eqn:Net.
    + destruct (is_httpx_error e); cbn;
        (eexists; eexists; split; [reflexivity|]; split; [discriminate|];
         intros _; eexists; cbn; split; [reflexivity|]; split; [reflexivity|];
         fold rq; rewrite Net; split;
         [ split; [discriminate | intros (st & bd & H & _); discriminate]
         | intros _; unfold logged; cbn; rewrite !in_app_iff; cbn; auto ]).
    + destruct (is_success status) eqn:Hs; cbn.
      * eexists; eexists; split; [reflexivity|]; split; [discriminate|].
        intros _; eexists; cbn; split; [reflexivity|]; split; [reflexivity|].
        fold rq; rewrite Net; split.
        -- split; [intros _; exists status, body; auto | reflexivity].
        -- discriminate.
      * eexists; eexists; split; [reflexivity|]; split; [discriminate|].
        intros _; eexists; cbn; split; [reflexivity|]; split; [reflexivity|].
        fold rq; rewrite Net; split.
        -- split; [discriminate|].
           intros (st & bd & H & Hst). injection H as <- _. congruence.
        -- intros _; unfold logged; cbn; rewrite !in_app_iff; cbn; auto.
  - eexists; eexists; split; [reflexivity|]; split; [|discriminate].
    intros _. split; reflexivity.
Qed.

End PublisherClaims.

